(** * shadowsocks/core.py: the per-connection relay state machine

    A shallow embedding of [LocalHandler], [LocalTCP], [RemoteTCP],
    [LocalUDP] and [RemoteUDP].  Every callback of the source is a function
    on an explicit world; the one coroutine, [_handle_stage_init], is cut at
    its [await] into the part that runs up to the suspension and the parts
    that run when the awaited connect returns or raises. *)

From Stdlib Require Import ZArith List Bool Lia String Ascii DecimalString.
From Stdlib.Strings Require Import Byte.
Import ListNotations.
Open Scope Z_scope.

(** ** Plain data *)

Definition bytes := list byte.

(** A peer name as asyncio reports it: [(host, port)]. *)
Definition Peer := (string * Z)%type.

Definition Peer_eqb (p q : Peer) : bool :=
  (String.eqb (fst p) (fst q) && (snd p =? snd q))%bool.

(** [protocol_flag.TRANSPORT_TCP] and [protocol_flag.TRANSPORT_UDP]. *)
Inductive Proto := TRANSPORT_TCP | TRANSPORT_UDP.

Definition Proto_eqb (a b : Proto) : bool :=
  match a, b with
  | TRANSPORT_TCP, TRANSPORT_TCP | TRANSPORT_UDP, TRANSPORT_UDP => true
  | _, _ => false
  end.

(** The five stages of [LocalHandler], with the integers the class gives them. *)
Inductive Stage :=
| STAGE_INIT | STAGE_CONNECT | STAGE_STREAM | STAGE_DESTROY | STAGE_ERROR.



(** [socket.AF_INET] and [socket.AF_INET6]. *)
Inductive AddressFamily := AF_INET | AF_INET6.

(** What [parse_header] returns: [(addr_type, dst_addr, dst_port,
    header_length)], every field possibly [None]. *)
Record ParsedHeader := mkParsedHeader {
  addr_type : option Z;
  dst_addr : option string;
  dst_port : option Z;
  header_length : option Z }.

(** Python truth value of the fields, as [all([...])] tests them. *)
Definition truthy_int (v : option Z) : bool :=
  match v with Some z => negb (z =? 0) | None => false end.

Definition truthy_str (v : option string) : bool :=
  match v with Some EmptyString => false | Some _ => true | None => false end.

Definition all_fields (h : ParsedHeader) : bool :=
  (truthy_int (addr_type h) && truthy_str (dst_addr h)
   && truthy_int (dst_port h) && truthy_int (header_length h))%bool.

(** [data[n:]] with Python's slice rules. *)
Definition slice_from (n : Z) (data : bytes) : bytes :=
  if n <? 0
  then skipn (Z.to_nat (Z.max 0 (Z.of_nat (List.length data) + n))) data
  else skipn (Z.to_nat n) data.

(** ** Collaborators outside core.py

    The cipher manager, the header parser and [socket.inet_pton] are
    imported by core.py; the relay only calls them.  [decrypt] returns
    [None] when the call raises. *)
Class Collaborators := {
  Cipher : Type;
  decrypt : Cipher -> bytes -> Cipher * option bytes;
  encrypt : Cipher -> bytes -> Cipher * bytes;
  get_cipher_by_port : Z -> Proto -> option Cipher;
  remote_cipher : Cipher -> Proto -> Cipher;
  parse_header : bytes -> ParsedHeader;
  inet_pton : AddressFamily -> string -> option bytes }.

(** ** asyncio transports

    A transport is what the relay can see of it: whether it is closing and
    what was handed to it, in order.  [write] logs [(None, data)], [sendto]
    logs the destination it was given. *)
Record Transport := mkTransport {
  t_closing : bool;
  t_out : list (option Peer * bytes) }.

Definition new_transport : Transport := mkTransport false [].

Definition transport_close (t : Transport) : Transport :=
  mkTransport true (t_out t).

Definition transport_write (t : Transport) (data : bytes) : Transport :=
  if t_closing t then t else mkTransport false (t_out t ++ [(None, data)]).

Definition transport_sendto (t : Transport) (data : bytes) (to : option Peer)
  : Transport :=
  if t_closing t then t else mkTransport false (t_out t ++ [(to, data)]).

(** All bytes handed to a transport, concatenated. *)
Definition written (t : Transport) : bytes := List.concat (map snd (t_out t)).

Section Core.

Context {X : Collaborators}.

(** ** Objects *)

(** [LocalHandler].  [lh_remote] tells whether [self._remote] holds the
    session's [RemoteTCP]; [lh_transport] whether [self._transport] is set. *)
Record LocalHandler := mkLocalHandler {
  lh_port : Z;
  lh_cipher : option Cipher;
  lh_stage : option Stage;
  lh_peername : option Peer;
  lh_remote : bool;
  lh_transport : bool;
  lh_transport_protocol : option Proto;
  lh_is_closing : bool;
  lh_connect_buffer : bytes }.

(** [RemoteTCP]; its [local] is the world's handler. *)
Record RemoteTCP := mkRemoteTCP {
  rt_transport : bool;
  rt_cipher : Cipher;
  rt_ready : bool;
  rt_is_closing : bool }.

(** One session and what it shares with the process: the handler, the
    [RemoteTCP] the connect factory built (if it has run), the two
    transports, the suspended connect of [_handle_stage_init], the two
    metrics, and logs of what was asked of the collaborators.
    [stage_writes] lists every assignment to [self._stage], oldest first. *)
Record World := mkWorld {
  local : LocalHandler;
  remote : option RemoteTCP;
  client_transport : Transport;
  upstream_transport : Transport;
  pending_connect : option (string * Z);
  ACTIVE_CONNECTION_COUNT : Z;
  CONNECTION_MADE_COUNT : Z;
  incr_user_tcp_num_calls : list Z;
  record_user_ip_calls : list (option Peer);
  create_connection_calls : list (string * Z);
  stage_writes : list Stage }.

(** Field updates. *)
Definition with_local (f : LocalHandler -> LocalHandler) (w : World) : World :=
  mkWorld (f (local w)) (remote w) (client_transport w) (upstream_transport w)
    (pending_connect w) (ACTIVE_CONNECTION_COUNT w) (CONNECTION_MADE_COUNT w)
    (incr_user_tcp_num_calls w) (record_user_ip_calls w)
    (create_connection_calls w) (stage_writes w).

Definition with_remote (r : option RemoteTCP) (w : World) : World :=
  mkWorld (local w) r (client_transport w) (upstream_transport w)
    (pending_connect w) (ACTIVE_CONNECTION_COUNT w) (CONNECTION_MADE_COUNT w)
    (incr_user_tcp_num_calls w) (record_user_ip_calls w)
    (create_connection_calls w) (stage_writes w).

Definition with_client_transport (t : Transport) (w : World) : World :=
  mkWorld (local w) (remote w) t (upstream_transport w)
    (pending_connect w) (ACTIVE_CONNECTION_COUNT w) (CONNECTION_MADE_COUNT w)
    (incr_user_tcp_num_calls w) (record_user_ip_calls w)
    (create_connection_calls w) (stage_writes w).

Definition with_upstream_transport (t : Transport) (w : World) : World :=
  mkWorld (local w) (remote w) (client_transport w) t
    (pending_connect w) (ACTIVE_CONNECTION_COUNT w) (CONNECTION_MADE_COUNT w)
    (incr_user_tcp_num_calls w) (record_user_ip_calls w)
    (create_connection_calls w) (stage_writes w).

Definition with_pending_connect (p : option (string * Z)) (w : World) : World :=
  mkWorld (local w) (remote w) (client_transport w) (upstream_transport w)
    p (ACTIVE_CONNECTION_COUNT w) (CONNECTION_MADE_COUNT w)
    (incr_user_tcp_num_calls w) (record_user_ip_calls w)
    (create_connection_calls w) (stage_writes w).

(** [ACTIVE_CONNECTION_COUNT.inc(n)]. *)
Definition active_inc (n : Z) (w : World) : World :=
  mkWorld (local w) (remote w) (client_transport w) (upstream_transport w)
    (pending_connect w) (ACTIVE_CONNECTION_COUNT w + n) (CONNECTION_MADE_COUNT w)
    (incr_user_tcp_num_calls w) (record_user_ip_calls w)
    (create_connection_calls w) (stage_writes w).

(** [CONNECTION_MADE_COUNT.inc()]. *)
Definition made_inc (w : World) : World :=
  mkWorld (local w) (remote w) (client_transport w) (upstream_transport w)
    (pending_connect w) (ACTIVE_CONNECTION_COUNT w) (CONNECTION_MADE_COUNT w + 1)
    (incr_user_tcp_num_calls w) (record_user_ip_calls w)
    (create_connection_calls w) (stage_writes w).

(** [self.cipher.incr_user_tcp_num(n)]. *)
Definition log_incr_user_tcp_num (n : Z) (w : World) : World :=
  mkWorld (local w) (remote w) (client_transport w) (upstream_transport w)
    (pending_connect w) (ACTIVE_CONNECTION_COUNT w) (CONNECTION_MADE_COUNT w)
    (incr_user_tcp_num_calls w ++ [n]) (record_user_ip_calls w)
    (create_connection_calls w) (stage_writes w).

(** [self.cipher.record_user_ip(peername)]. *)
Definition log_record_user_ip (p : option Peer) (w : World) : World :=
  mkWorld (local w) (remote w) (client_transport w) (upstream_transport w)
    (pending_connect w) (ACTIVE_CONNECTION_COUNT w) (CONNECTION_MADE_COUNT w)
    (incr_user_tcp_num_calls w) (record_user_ip_calls w ++ [p])
    (create_connection_calls w) (stage_writes w).

(** [loop.create_connection(factory, host, port)] is called. *)
Definition log_create_connection (a : string * Z) (w : World) : World :=
  mkWorld (local w) (remote w) (client_transport w) (upstream_transport w)
    (pending_connect w) (ACTIVE_CONNECTION_COUNT w) (CONNECTION_MADE_COUNT w)
    (incr_user_tcp_num_calls w) (record_user_ip_calls w)
    (create_connection_calls w ++ [a]) (stage_writes w).

Definition set_stage (s : Stage) (l : LocalHandler) : LocalHandler :=
  mkLocalHandler (lh_port l) (lh_cipher l) (Some s) (lh_peername l)
    (lh_remote l) (lh_transport l) (lh_transport_protocol l)
    (lh_is_closing l) (lh_connect_buffer l).

Definition set_cipher (c : option Cipher) (l : LocalHandler) : LocalHandler :=
  mkLocalHandler (lh_port l) c (lh_stage l) (lh_peername l)
    (lh_remote l) (lh_transport l) (lh_transport_protocol l)
    (lh_is_closing l) (lh_connect_buffer l).

Definition set_remote (b : bool) (l : LocalHandler) : LocalHandler :=
  mkLocalHandler (lh_port l) (lh_cipher l) (lh_stage l) (lh_peername l)
    b (lh_transport l) (lh_transport_protocol l)
    (lh_is_closing l) (lh_connect_buffer l).

Definition set_is_closing (b : bool) (l : LocalHandler) : LocalHandler :=
  mkLocalHandler (lh_port l) (lh_cipher l) (lh_stage l) (lh_peername l)
    (lh_remote l) (lh_transport l) (lh_transport_protocol l)
    b (lh_connect_buffer l).

Definition set_connect_buffer (b : bytes) (l : LocalHandler) : LocalHandler :=
  mkLocalHandler (lh_port l) (lh_cipher l) (lh_stage l) (lh_peername l)
    (lh_remote l) (lh_transport l) (lh_transport_protocol l)
    (lh_is_closing l) b.

(** [self._stage = s], recorded in [stage_writes]. *)
Definition assign_stage (s : Stage) (w : World) : World :=
  mkWorld (set_stage s (local w)) (remote w) (client_transport w)
    (upstream_transport w) (pending_connect w) (ACTIVE_CONNECTION_COUNT w)
    (CONNECTION_MADE_COUNT w) (incr_user_tcp_num_calls w)
    (record_user_ip_calls w) (create_connection_calls w)
    (stage_writes w ++ [s]).

Definition is_tcp (w : World) : bool :=
  match lh_transport_protocol (local w) with
  | Some TRANSPORT_TCP => true
  | _ => false
  end.

(** ** close

    [LocalHandler.close] and [RemoteTCP.close] call each other; the two
    latches stop the recursion.  [fuel] bounds the number of nested calls:
    [None] means the bound was hit before the outermost call returned. *)
Fixpoint LocalHandler_close (fuel : nat) (w : World) {struct fuel}
  : option World :=
  match fuel with
  | O => None
  | S fuel' =>
    let w := assign_stage STAGE_DESTROY w in
    if lh_is_closing (local w) then Some w
    else
      let w := with_local (set_is_closing true) w in
      let w := active_inc (-1) w in
      let w :=
        if is_tcp w then
          let w := if lh_transport (local w)
                   then with_client_transport
                          (transport_close (client_transport w)) w
                   else w in
          match lh_cipher (local w) with
          | Some _ => log_incr_user_tcp_num (-1) w
          | None => w
          end
        else w in
      if lh_remote (local w) then RemoteTCP_close fuel' w else Some w
  end

with RemoteTCP_close (fuel : nat) (w : World) {struct fuel} : option World :=
  match fuel with
  | O => None
  | S fuel' =>
    match remote w with
    | None => Some w
    | Some r =>
      if rt_is_closing r then Some w
      else
        let w := with_remote
                   (Some (mkRemoteTCP (rt_transport r) (rt_cipher r)
                                      (rt_ready r) true)) w in
        let w := active_inc (-1) w in
        let w := if rt_transport r
                 then with_upstream_transport
                        (transport_close (upstream_transport w)) w
                 else w in
        LocalHandler_close fuel' w
    end
  end.

(** Three frames are the deepest the two latches allow. *)
Definition close_depth : nat := 3.

Definition close (w : World) : World :=
  match LocalHandler_close close_depth w with Some w' => w' | None => w end.

Definition remote_close (w : World) : World :=
  match RemoteTCP_close close_depth w with Some w' => w' | None => w end.

(** ** LocalHandler *)

(** [LocalHandler(port)]. *)
Definition LocalHandler_init (port : Z) : LocalHandler :=
  mkLocalHandler port None None None false false None false [].

(** [_init_transport] then [_init_cipher]. *)
Definition handle_connection_made (protocol : Proto) (peername : Peer)
    (w : World) : World :=
  let w := assign_stage STAGE_INIT w in
  with_local (fun l =>
    mkLocalHandler (lh_port l)
      (get_cipher_by_port (lh_port l) protocol)
      (lh_stage l) (Some peername) (lh_remote l) true (Some protocol)
      (lh_is_closing l) (lh_connect_buffer l)) w.

(** [LocalHandler.write]: towards the client. *)
Definition LocalHandler_write (data : bytes) (w : World) : World :=
  if is_tcp w then
    if t_closing (client_transport w) then w
    else with_client_transport (transport_write (client_transport w) data) w
  else
    with_client_transport
      (transport_sendto (client_transport w) data (lh_peername (local w))) w.

(** [RemoteTCP.write]: towards the upstream. *)
Definition RemoteTCP_write (data : bytes) (w : World) : World :=
  if negb (t_closing (upstream_transport w))
  then with_upstream_transport (transport_write (upstream_transport w) data) w
  else w.

(** [_handle_stage_stream].  With [self._remote] unset the attribute access
    raises out of the callback and nothing else runs. *)
Definition _handle_stage_stream (data : bytes) (w : World) : World :=
  if lh_remote (local w) then RemoteTCP_write data w else w.

(** [self._remote.ready], read through the handler's reference. *)
Definition remote_ready (w : World) : bool :=
  match remote w with Some r => rt_ready r | None => false end.

(** [_handle_stage_connect]. *)
Definition _handle_stage_connect (data : bytes) (w : World) : World :=
  if (negb (lh_remote (local w)) || negb (remote_ready w))%bool
  then with_local (fun l =>
         set_connect_buffer (lh_connect_buffer l ++ data) l) w
  else
    let w := assign_stage STAGE_STREAM w in
    _handle_stage_stream data w.

(** [_handle_stage_init] up to its first suspension.  On the TCP branch
    the coroutine stops inside [await loop.create_connection(...)]; the rest
    is [connect_returned] and [connect_failed] below.  On the UDP branch
    the [try] body starts by evaluating [self.create_datagram_endpoint]:
    [LocalHandler] has no base class and defines no such attribute, so the
    lookup raises [AttributeError] and the [except Exception] branch runs
    at once. *)
Definition _handle_stage_init (data : bytes) (w : World) : World :=
  let h := parse_header data in
  if negb (all_fields h) then close w
  else
    match header_length h, dst_addr h, dst_port h with
    | Some n, Some host, Some p =>
      let payload := slice_from n data in
      if is_tcp w then
        let w := assign_stage STAGE_CONNECT w in
        let w := _handle_stage_connect payload w in
        let w := log_create_connection (host, p) w in
        with_pending_connect (Some (host, p)) w
      else
        let w := assign_stage STAGE_ERROR w in
        close w
    | _, _, _ => close w
    end.

(** [handle_data_received]. *)
Definition handle_data_received (data : bytes) (w : World) : World :=
  match lh_cipher (local w) with
  | None => close w
  | Some c =>
    let (c', r) := decrypt c data in
    let w := with_local (set_cipher (Some c')) w in
    match r with
    | None => close w
    | Some [] => w
    | Some plain =>
      match lh_stage (local w) with
      | Some STAGE_INIT => _handle_stage_init plain w
      | Some STAGE_CONNECT => _handle_stage_connect plain w
      | Some STAGE_STREAM => _handle_stage_stream plain w
      | Some STAGE_ERROR => close w
      | Some STAGE_DESTROY => close w
      | None => w
      end
    end
  end.

Definition handle_eof_received (w : World) : World := close w.

Definition handle_connection_lost (w : World) : World := close w.

(** The coroutine resumes with [(_, remote_tcp)]: the [else] branch. *)
Definition connect_returned (w : World) : World :=
  let w := with_pending_connect None w in
  let w := with_local (set_remote true) w in
  match lh_cipher (local w) with
  | Some _ => log_record_user_ip (lh_peername (local w)) w
  | None => w
  end.

(** The coroutine resumes with an exception: the [except] branch. *)
Definition connect_failed (w : World) : World :=
  let w := with_pending_connect None w in
  let w := assign_stage STAGE_ERROR w in
  close w.

(** ** RemoteTCP *)

(** The factory [lambda: RemoteTCP(self)] followed by
    [RemoteTCP.connection_made] on a fresh transport.  The object is not
    reachable from the handler between the two calls, so they are one
    step. *)
Definition RemoteTCP_connection_made (c : Cipher) (w : World) : World :=
  let r := mkRemoteTCP false (remote_cipher c TRANSPORT_TCP) false false in
  let r := mkRemoteTCP true (rt_cipher r) (rt_ready r) (rt_is_closing r) in
  let w := with_upstream_transport
             (transport_write new_transport (lh_connect_buffer (local w))) w in
  let r := mkRemoteTCP (rt_transport r) (rt_cipher r) true (rt_is_closing r) in
  let w := with_remote (Some r) w in
  let w := made_inc w in
  active_inc 1 w.

(** [RemoteTCP.data_received]. *)
Definition RemoteTCP_data_received (data : bytes) (w : World) : World :=
  match remote w with
  | None => w
  | Some r =>
    let (c', out) := encrypt (rt_cipher r) data in
    let w := with_remote
               (Some (mkRemoteTCP (rt_transport r) c' (rt_ready r)
                                  (rt_is_closing r))) w in
    LocalHandler_write out w
  end.

(** ** LocalTCP *)

(** A world with a fresh [LocalHandler(port)] and the given metrics. *)
Definition fresh_world (port active made : Z) : World :=
  mkWorld (LocalHandler_init port) None new_transport new_transport None
    active made [] [] [] [].

(** [LocalTCP.connection_made]. *)
Definition LocalTCP_connection_made (peername : Peer) (w : World) : World :=
  let w := handle_connection_made TRANSPORT_TCP peername w in
  let w := made_inc w in
  active_inc 1 w.

(** ** The reactor's events for one session

    [ev_connect_made], [ev_connect_returned] and [ev_connect_failed] are
    what can happen to the suspended [await loop.create_connection]: the
    reactor builds the protocol and calls its [connection_made]; it then
    resumes the coroutine in a later callback; or the connect raises. *)
Inductive Event :=
| ev_data_received (data : bytes)
| ev_eof_received
| ev_connection_lost
| ev_connect_made
| ev_connect_returned
| ev_connect_failed
| ev_remote_data_received (data : bytes)
| ev_remote_eof_received
| ev_remote_connection_lost.

(** Whether the reactor can deliver the event in this world. *)
Definition enabled (w : World) (e : Event) : bool :=
  match e with
  | ev_data_received _ | ev_eof_received | ev_connection_lost => true
  | ev_connect_made | ev_connect_failed =>
    match pending_connect w, remote w with
    | Some _, None => true
    | _, _ => false
    end
  | ev_connect_returned =>
    match pending_connect w, remote w with
    | Some _, Some _ => true
    | _, _ => false
    end
  | ev_remote_data_received _ | ev_remote_eof_received
  | ev_remote_connection_lost =>
    match remote w with Some _ => true | None => false end
  end.

(** One callback.  An event the reactor cannot deliver leaves the world as
    it is. *)
Definition step (w : World) (e : Event) : World :=
  if negb (enabled w e) then w
  else
    match e with
    | ev_data_received data => handle_data_received data w
    | ev_eof_received => handle_eof_received w
    | ev_connection_lost => handle_connection_lost w
    | ev_connect_made =>
      match lh_cipher (local w) with
      | Some c => RemoteTCP_connection_made c w
      | None => connect_failed w
      end
    | ev_connect_returned => connect_returned w
    | ev_connect_failed => connect_failed w
    | ev_remote_data_received data => RemoteTCP_data_received data w
    | ev_remote_eof_received => remote_close w
    | ev_remote_connection_lost => remote_close w
    end.

Definition run (w : World) (tr : list Event) : World := fold_left step tr w.

(** Bytes the upstream has been handed so far. *)
Definition upstream_bytes (w : World) : bytes := written (upstream_transport w).

(** ** RemoteUDP *)

Inductive Exn :=
| AssertionError | AttributeError | AddrNotValid | OSError | StructError.

Inductive Result (A : Type) :=
| Ok (a : A)
| Raise (e : Exn).

Arguments Ok {A} a.
Arguments Raise {A} e.

(** [RemoteUDP].  [ru_local] tells whether the attribute [local] is still
    there: [close] deletes it.  While it is, it refers to the world's
    handler. *)
Record RemoteUDP := mkRemoteUDP {
  ru_data : bytes;
  ru_local : bool;
  ru_peername : option Peer;
  ru_transport : option Transport;
  ru_cipher : Cipher;
  ru_is_closing : bool }.

(** [RemoteUDP(addr, port, data, local_hander)]. *)
Definition RemoteUDP_init (data : bytes) (w : World) : Result RemoteUDP :=
  match lh_cipher (local w) with
  | Some c =>
    Ok (mkRemoteUDP data true None None (remote_cipher c TRANSPORT_UDP) false)
  | None => Raise AttributeError
  end.

(** [RemoteUDP.write]. *)
Definition RemoteUDP_write (data : bytes) (u : RemoteUDP) : RemoteUDP :=
  match ru_transport u with
  | Some t =>
    if negb (t_closing t)
    then mkRemoteUDP (ru_data u) (ru_local u) (ru_peername u)
           (Some (transport_sendto t data None)) (ru_cipher u)
           (ru_is_closing u)
    else u
  | None => u
  end.

(** [RemoteUDP.close].  The world is threaded through to show what the call
    does to the session: nothing. *)
Definition RemoteUDP_close (uw : RemoteUDP * World) : RemoteUDP * World :=
  let (u, w) := uw in
  if ru_is_closing u then (u, w)
  else
    (mkRemoteUDP (ru_data u) false (ru_peername u)
       (option_map transport_close (ru_transport u)) (ru_cipher u) true, w).

(** [RemoteUDP.connection_made], on a fresh datagram transport connected
    to [peername]. *)
Definition RemoteUDP_connection_made (peername : Peer) (u : RemoteUDP)
  : RemoteUDP :=
  let u := mkRemoteUDP (ru_data u) (ru_local u) (Some peername)
             (Some new_transport) (ru_cipher u) (ru_is_closing u) in
  RemoteUDP_write (ru_data u) u.

(** [c in s] for a one-character [c]. *)
Fixpoint contains_char (c : ascii) (s : string) : bool :=
  match s with
  | EmptyString => false
  | String a s' => (Ascii.eqb a c || contains_char c s')%bool
  end.

Definition byte_of_Z (z : Z) : byte :=
  match Byte.of_N (Z.to_N z) with Some b => b | None => x00 end.

(** [struct.pack("!H", p)]. *)
Definition struct_pack_H (p : Z) : Result bytes :=
  if ((0 <=? p) && (p <=? 65535))%bool
  then Ok [byte_of_Z (p / 256); byte_of_Z (p mod 256)]
  else Raise StructError.

(** The bytes [RemoteUDP.datagram_received] builds before it encrypts:
    source lines 321 to 331. *)
Definition reply_plaintext (peername : Peer) (data : bytes) : Result bytes :=
  let bind_addr := fst peername in
  let bind_port := snd peername in
  let addr :=
    if contains_char "."%char bind_addr then
      match inet_pton AF_INET bind_addr with
      | Some a => Ok a
      | None => Raise OSError
      end
    else if contains_char ":"%char bind_addr then
      match inet_pton AF_INET6 bind_addr with
      | Some a => Ok a
      | None => Raise OSError
      end
    else Raise AddrNotValid in
  match addr with
  | Raise e => Raise e
  | Ok addr =>
    match struct_pack_H bind_port with
    | Raise e => Raise e
    | Ok port => Ok ([x01] ++ addr ++ port ++ data)
    end
  end.

(** [RemoteUDP.datagram_received]. *)
Definition RemoteUDP_datagram_received (data : bytes) (peername : Peer)
    (uw : RemoteUDP * World) : Result (RemoteUDP * World) :=
  let (u, w) := uw in
  match ru_peername u with
  | Some p =>
    if Peer_eqb p peername then
      match reply_plaintext peername data with
      | Raise e => Raise e
      | Ok plain =>
        let (c', out) := encrypt (ru_cipher u) plain in
        let u := mkRemoteUDP (ru_data u) (ru_local u) (ru_peername u)
                   (ru_transport u) c' (ru_is_closing u) in
        if ru_local u then Ok (u, LocalHandler_write out w)
        else Raise AttributeError
      end
    else Raise AssertionError
  | None => Raise AssertionError
  end.

(** ** LocalUDP

    [_protocols] maps a client endpoint to its handler.  Every entry keeps
    its session's world; the socket and the metrics are shared by all of
    them, so the acceptor owns them and puts them into the session's world
    for the time of a call. *)
Record LocalUDP := mkLocalUDP {
  lu_port : Z;
  lu_protocols : list (Peer * World);
  lu_transport : Transport;
  lu_active : Z;
  lu_made : Z }.

Fixpoint dict_get (k : Peer) (d : list (Peer * World)) : option World :=
  match d with
  | [] => None
  | (k', v) :: d' => if Peer_eqb k' k then Some v else dict_get k d'
  end.

Fixpoint dict_set (k : Peer) (v : World) (d : list (Peer * World))
  : list (Peer * World) :=
  match d with
  | [] => [(k, v)]
  | (k', v') :: d' =>
    if Peer_eqb k' k then (k, v) :: d' else (k', v') :: dict_set k v d'
  end.

(** The session's world with the acceptor's socket and metrics in it. *)
Definition shared_in (u : LocalUDP) (w : World) : World :=
  mkWorld (local w) (remote w) (lu_transport u) (upstream_transport w)
    (pending_connect w) (lu_active u) (lu_made u)
    (incr_user_tcp_num_calls w) (record_user_ip_calls w)
    (create_connection_calls w) (stage_writes w).

(** [LocalUDP.datagram_received]. *)
Definition LocalUDP_datagram_received (data : bytes) (peername : Peer)
    (u : LocalUDP) : LocalUDP :=
  let handler :=
    match dict_get peername (lu_protocols u) with
    | Some w => shared_in u w
    | None =>
      handle_connection_made TRANSPORT_UDP peername
        (shared_in u (fresh_world (lu_port u) 0 0))
    end in
  let w := handle_data_received data handler in
  mkLocalUDP (lu_port u) (dict_set peername w (lu_protocols u))
    (client_transport w) (ACTIVE_CONNECTION_COUNT w) (CONNECTION_MADE_COUNT w).

(** A run of datagrams through the acceptor. *)
Definition udp_serve (u : LocalUDP) (ds : list (bytes * Peer)) : LocalUDP :=
  fold_left (fun u d => LocalUDP_datagram_received (fst d) (snd d) u) ds u.

(** ** Calling close from either half *)

Inductive CloseCall := call_local_close | call_remote_close.

Definition do_close (w : World) (c : CloseCall) : World :=
  match c with
  | call_local_close => close w
  | call_remote_close => remote_close w
  end.


Definition local_closing (w : World) : bool := lh_is_closing (local w).

Definition remote_closing (w : World) : bool :=
  match remote w with Some r => rt_is_closing r | None => false end.

(** What a close may touch besides the latches and the stage. *)
Definition metrics_and_transports (w : World)
  : Z * Z * list Z * Transport * Transport :=
  (ACTIVE_CONNECTION_COUNT w, CONNECTION_MADE_COUNT w,
   incr_user_tcp_num_calls w, client_transport w, upstream_transport w).

Definition has_remote (w : World) : bool :=
  match remote w with Some _ => true | None => false end.

Definition has_cipher (w : World) : bool :=
  match lh_cipher (local w) with Some _ => true | None => false end.

Definition is_local_call (c : CloseCall) : bool :=
  match c with call_local_close => true | call_remote_close => false end.

Definition is_remote_call (c : CloseCall) : bool :=
  match c with call_local_close => false | call_remote_close => true end.

(** The latch of the half whose [close] is called. *)
Definition half_closing (c : CloseCall) (w : World) : bool :=
  match c with
  | call_local_close => local_closing w
  | call_remote_close => remote_closing w
  end.

(** Halves that exist and have not been closed. *)
Definition live_halves (w : World) : Z :=
  Z.b2z (negb (local_closing w))
  + Z.b2z (has_remote w && negb (remote_closing w)).

(** ** Reading the stage and the traffic of a trace *)

(** The order the stages are meant to be visited in. *)
Definition stage_rank (s : option Stage) : nat :=
  match s with
  | None => 0
  | Some STAGE_INIT => 1
  | Some STAGE_CONNECT => 2
  | Some STAGE_STREAM => 3
  | Some STAGE_ERROR => 4
  | Some STAGE_DESTROY => 5
  end.


(** What [cipher.decrypt] returns for the client chunks of a trace, in
    order, starting from cipher state [c]; [None] if a call raises. *)
Fixpoint plaintexts (c : Cipher) (tr : list Event) : option (list bytes) :=
  match tr with
  | [] => Some []
  | ev_data_received data :: rest =>
    match decrypt c data with
    | (c', Some plain) =>
      match plaintexts c' rest with
      | Some ps => Some (plain :: ps)
      | None => None
      end
    | (_, None) => None
    end
  | _ :: rest => plaintexts c rest
  end.



(** Events that close neither half. *)
Definition keeps_open (e : Event) : bool :=
  match e with
  | ev_data_received _ | ev_connect_made | ev_connect_returned
  | ev_remote_data_received _ => true
  | _ => false
  end.



(** A new TCP session: [LocalTCP.__call__] then [connection_made]. *)
Definition tcp_session (port active made : Z) (peername : Peer) : World :=
  LocalTCP_connection_made peername (fresh_world port active made).

(** A new UDP session, as [LocalUDP.datagram_received] makes it for an
    unknown peer. *)
Definition udp_session (port active made : Z) (peername : Peer) : World :=
  handle_connection_made TRANSPORT_UDP peername (fresh_world port active made).

(** How a UDP session is made and stays: no [RemoteTCP], no connect in
    flight, [self._remote] unset. *)
Definition udp_shape (w : World) : Prop :=
  is_tcp w = false /\ remote w = None /\ pending_connect w = None
  /\ lh_remote (local w) = false.

(** The three phases of a TCP session that is open, with its cipher in
    state [c]: before the header, between the header and the upstream
    connection, and with the upstream ready. *)
Definition awaiting_header (c : Cipher) (w : World) : Prop :=
  is_tcp w = true /\ lh_cipher (local w) = Some c
  /\ lh_stage (local w) = Some STAGE_INIT
  /\ lh_remote (local w) = false /\ remote w = None
  /\ pending_connect w = None
  /\ lh_connect_buffer (local w) = []
  /\ upstream_transport w = new_transport.

Definition connecting (c : Cipher) (w : World) : Prop :=
  is_tcp w = true /\ lh_cipher (local w) = Some c
  /\ lh_stage (local w) = Some STAGE_CONNECT
  /\ lh_remote (local w) = false /\ remote w = None
  /\ pending_connect w <> None
  /\ upstream_transport w = new_transport.

(** Between [RemoteTCP.connection_made] and the opener's resume: the
    remote is ready and has taken the buffer, [self._remote] is unset. *)
Definition drained (c : Cipher) (w : World) : Prop :=
  is_tcp w = true /\ lh_cipher (local w) = Some c
  /\ lh_stage (local w) = Some STAGE_CONNECT
  /\ lh_remote (local w) = false /\ remote_ready w = true
  /\ pending_connect w <> None
  /\ t_closing (upstream_transport w) = false.

Definition relaying (c : Cipher) (w : World) : Prop :=
  lh_cipher (local w) = Some c
  /\ (lh_stage (local w) = Some STAGE_CONNECT
      \/ lh_stage (local w) = Some STAGE_STREAM)
  /\ lh_remote (local w) = true /\ remote_ready w = true
  /\ pending_connect w = None
  /\ t_closing (upstream_transport w) = false.

(** ** Further readings of a world *)

(** Bytes the client has been handed so far. *)
Definition client_bytes (w : World) : bytes := written (client_transport w).

(** What the remote's [cipher.encrypt] returns for the upstream chunks of
    a trace, in order, starting from cipher state [c]. *)
Fixpoint ciphertexts (c : Cipher) (tr : list Event) : list bytes :=
  match tr with
  | [] => []
  | ev_remote_data_received data :: rest =>
    let (c', out) := encrypt c data in out :: ciphertexts c' rest
  | _ :: rest => ciphertexts c rest
  end.

(** A TCP session with both halves up and neither closed. *)
Definition established (w : World) : Prop :=
  is_tcp w = true /\ lh_transport (local w) = true
  /\ lh_remote (local w) = true /\ pending_connect w = None
  /\ local_closing w = false /\ remote_closing w = false
  /\ exists r : RemoteTCP, remote w = Some r /\ rt_transport r = true.

(** A TCP session after its close: the handler latched, the client
    transport closing, no connect in flight, and the upstream transport
    closing if there is a remote. *)
Definition shut (w : World) : Prop :=
  is_tcp w = true /\ local_closing w = true
  /\ lh_stage (local w) = Some STAGE_DESTROY
  /\ t_closing (client_transport w) = true
  /\ pending_connect w = None
  /\ (has_remote w = true -> t_closing (upstream_transport w) = true).


(** How the [incr_user_tcp_num] calls of two worlds of one session
    relate: one [-1] more if the handler's latch was set in between, on
    TCP and with a cipher. *)
Definition decrements_once (w w' : World) : Prop :=
  incr_user_tcp_num_calls w'
  = incr_user_tcp_num_calls w
    ++ (if (negb (local_closing w) && local_closing w'
            && is_tcp w && has_cipher w)%bool
        then [-1] else [])
  /\ is_tcp w' = is_tcp w /\ has_cipher w' = has_cipher w
  /\ (local_closing w = true -> local_closing w' = true).

(** Events other than the upstream's end of file and loss. *)
Definition upstream_holds (e : Event) : bool :=
  match e with
  | ev_remote_eof_received | ev_remote_connection_lost => false
  | _ => true
  end.

(** [LocalUDP(port)] after its [connection_made], with the metrics as they
    stand. *)
Definition LocalUDP_start (port active made : Z) : LocalUDP :=
  mkLocalUDP port [] new_transport active made.

(** Registered handlers that have been closed. *)
Fixpoint closed_handlers (d : list (Peer * World)) : Z :=
  match d with
  | [] => 0
  | (_, w) :: d' => Z.b2z (local_closing w) + closed_handlers d'
  end.

End Core.

Arguments Ok {A} a.
Arguments Raise {A} e.

(** ** Sample collaborators

    A cipher that passes bytes through, a parser for the IPv4 form of the
    address header ([0x01], four address bytes, big-endian port) and an
    [inet_pton] that knows two addresses.  They give the concrete sessions
    below something to run on. *)
Module Demo.

Definition dec (b : byte) : string :=
  NilZero.string_of_uint (N.to_uint (Byte.to_N b)).

Definition dotted (a b c d : byte) : string :=
  (dec a ++ "." ++ dec b ++ "." ++ dec c ++ "." ++ dec d)%string.

Definition port_of (hi lo : byte) : Z :=
  Z.of_N (Byte.to_N hi) * 256 + Z.of_N (Byte.to_N lo).

Definition ipv4_parse_header (data : bytes) : ParsedHeader :=
  match data with
  | x01 :: a :: b :: c :: d :: hi :: lo :: _ =>
    mkParsedHeader (Some 1) (Some (dotted a b c d)) (Some (port_of hi lo))
      (Some 7)
  | _ => mkParsedHeader None None None None
  end.

Definition table_inet_pton (f : AddressFamily) (s : string) : option bytes :=
  match f with
  | AF_INET =>
    if String.eqb s "8.8.8.8" then Some [x08; x08; x08; x08] else None
  | AF_INET6 =>
    if String.eqb s "2001:db8::1"
    then Some [x20; x01; x0d; xb8; x00; x00; x00; x00;
               x00; x00; x00; x00; x00; x00; x00; x01]
    else None
  end.

Definition passthrough : Collaborators := {|
  Cipher := unit;
  decrypt := fun c data => (c, Some data);
  encrypt := fun c data => (c, data);
  get_cipher_by_port := fun _ _ => Some tt;
  remote_cipher := fun c _ => c;
  parse_header := ipv4_parse_header;
  inet_pton := table_inet_pton |}.

Definition client : Peer := ("203.0.113.7"%string, 40000).

(** Header for 93.184.216.34:80. *)
Definition header : bytes := [x01; x5d; xb8; xd8; x22; x00; x50].

Definition HELLO : bytes := list_byte_of_string "HELLO".
Definition WORLD : bytes := list_byte_of_string " WORLD".
Definition AGAIN : bytes := list_byte_of_string " AGAIN".

(** Header for 8.8.8.8:53 and a query. *)
Definition dns_header : bytes := [x01; x08; x08; x08; x08; x00; x35].
Definition query : bytes := list_byte_of_string "Q".


Definition tcp0 : World := @tcp_session passthrough 8388 0 0 client.
Definition udp0 : World := @udp_session passthrough 8388 0 0 client.

(** A [RemoteUDP] of [udp0] after its [connection_made]. *)
Definition udp_remote : @RemoteUDP passthrough :=
  @RemoteUDP_connection_made passthrough ("8.8.8.8"%string, 53)
    (@mkRemoteUDP passthrough query true None None tt false).

(** Traces of [tcp0].  The client sends the header with HELLO behind it. *)
Definition first_chunk : Event := ev_data_received (header ++ HELLO).

(** The upstream refuses the connection. *)
Definition refused : list Event := [first_chunk; ev_connect_failed].


(** Two more chunks, the upstream connecting between them and the opener
    resuming at once. *)
Definition in_order : list Event :=
  [first_chunk; ev_data_received WORLD; ev_connect_made;
   ev_connect_returned; ev_data_received AGAIN].

(** The same chunks, the second one delivered after
    [RemoteTCP.connection_made] and before the opener resumes. *)
Definition race : list Event :=
  [first_chunk; ev_connect_made; ev_data_received WORLD;
   ev_connect_returned; ev_data_received AGAIN].

(** The reply header the sample [inet_pton] gives for [2001:db8::1]:53. *)
Definition ipv6_reply : bytes :=
  [x01; x20; x01; x0d; xb8; x00; x00; x00; x00;
   x00; x00; x00; x00; x00; x00; x00; x01; x00; x35] ++ query.

End Demo.

(** * Properties *)

Section Properties.

Context {X : Collaborators}.

(** ** How a call to close behaves *)

Ltac break_world w :=
  destruct w as [[lp lc ls lpn lr lt lproto lcl lbuf] r ct ut pc ac mc ic rc cc sw].

Ltac break_remote r := destruct r as [[rtr rci rre rcl]|].

Ltac evaluate := lazy -[Z.add Z.sub Z.opp app].

(** Every combination of the flags [close] looks at. *)
Ltac close_cases w :=
  break_world w;
  match goal with
  | r : option RemoteTCP |- _ => break_remote r
  end;
  repeat match goal with
         | b : bool |- _ => destruct b
         | p : option Proto |- _ => destruct p as [[]|]
         | c : option Cipher |- _ => destruct c
         end.

Lemma LocalHandler_close_fuel (n : nat) (w : World) :
  LocalHandler_close (close_depth + n) w = Some (close w).
Proof. close_cases w; evaluate; reflexivity. Qed.

Lemma RemoteTCP_close_fuel (n : nat) (w : World) :
  RemoteTCP_close (close_depth + n) w = Some (remote_close w).
Proof. close_cases w; evaluate; reflexivity. Qed.

Lemma do_close_gauge (w : World) (c : CloseCall) :
  ACTIVE_CONNECTION_COUNT (do_close w c) - live_halves (do_close w c)
  = ACTIVE_CONNECTION_COUNT w - live_halves w.
Proof. destruct c; close_cases w; evaluate; lia. Qed.

(** What one call does to the two latches. *)
Lemma do_close_latches (w : World) (c : CloseCall) :
  local_closing (do_close w c)
  = (local_closing w || is_local_call c
     || (is_remote_call c && has_remote w && negb (remote_closing w)))%bool
  /\ remote_closing (do_close w c)
     = (has_remote w
        && (remote_closing w || is_remote_call c
            || (is_local_call c && lh_remote (local w)
                && negb (local_closing w))))%bool.
Proof. destruct c; close_cases w; evaluate; split; reflexivity. Qed.

(** What a call leaves alone. *)
Lemma do_close_frame (w : World) (c : CloseCall) :
  has_remote (do_close w c) = has_remote w
  /\ lh_remote (local (do_close w c)) = lh_remote (local w)
  /\ is_tcp (do_close w c) = is_tcp w
  /\ has_cipher (do_close w c) = has_cipher w
  /\ CONNECTION_MADE_COUNT (do_close w c) = CONNECTION_MADE_COUNT w
  /\ lh_stage (local (do_close w c))
     = (if half_closing c w && is_remote_call c then lh_stage (local w)
        else if has_remote w || is_local_call c then Some STAGE_DESTROY
        else lh_stage (local w)).
Proof. destruct c; close_cases w; evaluate; repeat split; reflexivity. Qed.

Lemma do_close_incr (w : World) (c : CloseCall) :
  incr_user_tcp_num_calls (do_close w c)
  = incr_user_tcp_num_calls w
    ++ (if (negb (local_closing w) && local_closing (do_close w c)
            && is_tcp w && has_cipher w)%bool
        then [-1] else []).
Proof.
  destruct c; close_cases w; evaluate;
    first [reflexivity | symmetry; apply app_nil_r].
Qed.









(** ** What close leaves behind, field by field *)

Lemma close_is_do_close (w : World) : close w = do_close w call_local_close.
Proof. reflexivity. Qed.

Lemma remote_close_is_do_close (w : World) :
  remote_close w = do_close w call_remote_close.
Proof. reflexivity. Qed.

Lemma close_stage (w : World) :
  lh_stage (local (close w)) = Some STAGE_DESTROY.
Proof.
  rewrite close_is_do_close.
  destruct (do_close_frame w call_local_close) as (_ & _ & _ & _ & _ & H).
  rewrite H. cbn [half_closing is_remote_call is_local_call].
  rewrite andb_false_r, orb_true_r. reflexivity.
Qed.

Lemma remote_close_stage (w : World) :
  lh_stage (local (remote_close w))
  = if (has_remote w && negb (remote_closing w))%bool
    then Some STAGE_DESTROY else lh_stage (local w).
Proof.
  rewrite remote_close_is_do_close.
  destruct (do_close_frame w call_remote_close) as (_ & _ & _ & _ & _ & H).
  rewrite H. cbn [half_closing is_remote_call is_local_call].
  destruct (remote_closing w), (has_remote w); reflexivity.
Qed.


(** Case analysis on whatever the goal branches on, keeping [close] and
    [remote_close] folded. *)
Ltac branch :=
  match goal with
  | |- context [match ?x with _ => _ end] =>
    lazymatch x with
    | context [match _ with _ => _ end] => fail
    | _ => destruct x eqn:?
    end
  end.

Ltac unfold_handlers :=
  unfold step, handle_data_received, handle_eof_received,
    handle_connection_lost, _handle_stage_init, _handle_stage_connect,
    _handle_stage_stream, connect_returned, connect_failed,
    RemoteTCP_connection_made, RemoteTCP_data_received, RemoteTCP_write,
    LocalHandler_write, remote_ready, enabled.

Ltac reduce :=
  cbn -[close remote_close live_halves stage_rank slice_from
        Z.add Z.sub Z.opp Z.b2z app] in *.

Ltac explore := repeat (reduce; try branch).


Lemma close_balance (w : World) :
  ACTIVE_CONNECTION_COUNT (close w) - live_halves (close w)
  = ACTIVE_CONNECTION_COUNT w - live_halves w.
Proof. apply (do_close_gauge w call_local_close). Qed.

Lemma remote_close_balance (w : World) :
  ACTIVE_CONNECTION_COUNT (remote_close w) - live_halves (remote_close w)
  = ACTIVE_CONNECTION_COUNT w - live_halves w.
Proof. apply (do_close_gauge w call_remote_close). Qed.

Ltac open_live :=
  unfold live_halves, local_closing, has_remote, remote_closing in *;
  cbn -[close remote_close Z.add Z.sub Z.opp Z.b2z] in *;
  repeat match goal with
         | H : remote _ = _ |- _ => rewrite H in *; clear H
         end;
  cbn -[Z.add Z.sub Z.opp] in *.

(** The gauge moves with the number of open halves: every callback keeps
    their difference. *)
Lemma step_balance (w : World) (e : Event) :
  ACTIVE_CONNECTION_COUNT (step w e) - live_halves (step w e)
  = ACTIVE_CONNECTION_COUNT w - live_halves w.
Proof.
  unfold_handlers; explore;
    rewrite ?close_balance, ?remote_close_balance;
    open_live; try lia.
Qed.

Lemma do_close_untouched (w : World) (c : CloseCall) :
  pending_connect (do_close w c) = pending_connect w
  /\ create_connection_calls (do_close w c) = create_connection_calls w
  /\ record_user_ip_calls (do_close w c) = record_user_ip_calls w
  /\ lh_connect_buffer (local (do_close w c)) = lh_connect_buffer (local w)
  /\ lh_cipher (local (do_close w c)) = lh_cipher (local w)
  /\ t_out (upstream_transport (do_close w c)) = t_out (upstream_transport w)
  /\ t_out (client_transport (do_close w c)) = t_out (client_transport w)
  /\ (remote w = None ->
      remote (do_close w c) = None
      /\ upstream_transport (do_close w c) = upstream_transport w).
Proof.
  destruct c; close_cases w; evaluate; repeat split;
    first [reflexivity | discriminate].
Qed.

(** ** Traces *)

Lemma run_cons (w : World) (e : Event) (tr : list Event) :
  run w (e :: tr) = run (step w e) tr.
Proof. reflexivity. Qed.

Lemma run_app (w : World) (tr1 tr2 : list Event) :
  run w (tr1 ++ tr2) = run (run w tr1) tr2.
Proof. apply fold_left_app. Qed.


Lemma run_balance (tr : list Event) (w : World) :
  ACTIVE_CONNECTION_COUNT (run w tr) - live_halves (run w tr)
  = ACTIVE_CONNECTION_COUNT w - live_halves w.
Proof.
  revert w. induction tr as [|e tr IH]; intros w; [reflexivity|].
  rewrite run_cons, IH. apply step_balance.
Qed.

(** ** UDP sessions never get a remote *)

Lemma close_udp_shape (w : World) : udp_shape w -> udp_shape (close w).
Proof.
  intros (H1 & H2 & H3 & H4). rewrite close_is_do_close.
  destruct (do_close_frame w call_local_close) as (_ & F' & F & _).
  destruct (do_close_untouched w call_local_close)
    as (P & _ & _ & _ & _ & _ & _ & R).
  destruct (R H2) as [R1 _].
  repeat split; congruence.
Qed.

Lemma step_udp_shape (w : World) (e : Event) :
  udp_shape w ->
  udp_shape (step w e)
  /\ create_connection_calls (step w e) = create_connection_calls w
  /\ upstream_transport (step w e) = upstream_transport w.
Proof.
  intros (H1 & H2 & H3 & H4).
  assert (C : forall w', udp_shape w' ->
              create_connection_calls w' = create_connection_calls w ->
              upstream_transport w' = upstream_transport w ->
              udp_shape (close w')
              /\ create_connection_calls (close w') = create_connection_calls w
              /\ upstream_transport (close w') = upstream_transport w).
  { intros w' S Hc Hu. split; [apply close_udp_shape, S|].
    rewrite close_is_do_close.
    destruct (do_close_untouched w' call_local_close)
      as (_ & P & _ & _ & _ & _ & _ & R).
    destruct S as (_ & S2 & _ & _). destruct (R S2) as [_ R2].
    split; congruence. }
  unfold_handlers; explore;
    try (rewrite H2 in *; discriminate);
    try (rewrite H3 in *; discriminate);
    unfold is_tcp in *; reduce;
    try congruence;
    try (apply C; [| reflexivity | reflexivity]);
    unfold udp_shape, is_tcp; cbn; auto.
Qed.

(** A UDP session stays as it was made: no remote, no connect, nothing
    sent upstream. *)
Lemma run_udp_shape (tr : list Event) (w : World) :
  udp_shape w ->
  udp_shape (run w tr)
  /\ create_connection_calls (run w tr) = create_connection_calls w
  /\ upstream_transport (run w tr) = upstream_transport w.
Proof.
  revert w. induction tr as [|e tr IH]; intros w S; [auto|].
  rewrite run_cons.
  destruct (step_udp_shape w e S) as (S' & Hc & Hu).
  destruct (IH _ S') as (S'' & Hc' & Hu').
  repeat split; try apply S''; congruence.
Qed.

Lemma udp_session_shape (port active made : Z) (peername : Peer) :
  udp_shape (udp_session port active made peername).
Proof. repeat split. Qed.


(** ** The stage between callbacks *)


(** ** The gauge *)

(** C10.  Making a UDP session leaves the active-connection gauge where it
    was, its first close takes one off, and after any events the gauge is
    the value from before the session minus one if the session is closed:
    a closed UDP session leaves it one lower.  A TCP session starts one
    higher and stays at that value plus its open halves, so it is back
    where it started when both halves are closed. *)
Theorem udp_close_leaves_gauge_one_lower (port active made : Z)
    (peername : Peer) (tr : list Event) :
  let u0 := udp_session port active made peername in
  let t0 := tcp_session port active made peername in
  ACTIVE_CONNECTION_COUNT u0 = active
  /\ ACTIVE_CONNECTION_COUNT (close u0) = active - 1
  /\ ACTIVE_CONNECTION_COUNT (run u0 tr)
     = active - Z.b2z (local_closing (run u0 tr))
  /\ ACTIVE_CONNECTION_COUNT t0 = active + 1
  /\ ACTIVE_CONNECTION_COUNT (run t0 tr) = active + live_halves (run t0 tr).
Proof.
  intros u0 t0.
  split; [reflexivity|]. split; [evaluate; lia|]. split; [|split].
  - pose proof (run_balance tr u0) as B.
    destruct (run_udp_shape tr u0 (udp_session_shape _ _ _ _))
      as ((_ & R & _) & _).
    unfold live_halves, has_remote in B. rewrite R in B.
    change (ACTIVE_CONNECTION_COUNT u0) with active in B.
    change (local_closing u0) with false in B.
    change (remote u0) with (@None RemoteTCP) in B. cbn in B.
    destruct (local_closing (run u0 tr)); cbn in *; lia.
  - reflexivity.
  - pose proof (run_balance tr t0) as B.
    change (ACTIVE_CONNECTION_COUNT t0) with (active + 1) in B.
    change (live_halves t0) with 1 in B. lia.
Qed.

(** ** Close from one half to the other *)

Lemma RemoteUDP_close_session (u : RemoteUDP) (w : World) :
  snd (RemoteUDP_close (u, w)) = w.
Proof. unfold RemoteUDP_close. destruct (ru_is_closing u); reflexivity. Qed.

(** C4 (amended).  On TCP closing either half closes the other:
    [LocalHandler.close] leaves the handler closing and, when the handler
    was not closing and [self._remote] holds the remote, the remote
    closing;
    [RemoteTCP.close] on a remote that was not closing leaves both
    closing and the stage at DESTROY; and the two calls return within
    three frames however much deeper they were allowed to go.  On UDP
    neither direction exists: [RemoteUDP.close] leaves the session as it
    was, and a UDP session never holds a remote for
    [LocalHandler.close] to close. *)
Theorem close_reaches_the_other_half_on_tcp_only (w : World) :
  (local_closing (close w) = true
   /\ (lh_remote (local w) = true -> has_remote w = true ->
       local_closing w = false ->
       remote_closing (close w) = true))
  /\ (has_remote w = true -> remote_closing w = false ->
      remote_closing (remote_close w) = true
      /\ local_closing (remote_close w) = true
      /\ lh_stage (local (remote_close w)) = Some STAGE_DESTROY)
  /\ (forall n : nat,
        LocalHandler_close (close_depth + n) w = Some (close w)
        /\ RemoteTCP_close (close_depth + n) w = Some (remote_close w))
  /\ (forall u : RemoteUDP, snd (RemoteUDP_close (u, w)) = w)
  /\ (udp_shape w ->
      forall tr : list Event,
        lh_remote (local (run w tr)) = false /\ remote (run w tr) = None).
Proof.
  destruct (do_close_latches w call_local_close) as [Ll Lr].
  destruct (do_close_latches w call_remote_close) as [Rl Rr].
  cbn [do_close is_local_call is_remote_call] in *.
  split; [split|split; [|split; [|split]]].
  - rewrite Ll. rewrite orb_true_r. reflexivity.
  - intros H1 H2 H3. rewrite Lr, H1, H2, H3.
    destruct (remote_closing w); reflexivity.
  - intros H1 H2. rewrite Rl, Rr, H1, H2.
    split; [reflexivity|]. split.
    + destruct (local_closing w); reflexivity.
    + rewrite remote_close_stage, H1, H2. reflexivity.
  - intros n. split;
      [apply LocalHandler_close_fuel | apply RemoteTCP_close_fuel].
  - intros u. apply RemoteUDP_close_session.
  - intros S tr. destruct (run_udp_shape tr w S) as ((_ & R & _ & L) & _).
    split; assumption.
Qed.

(** ** Chunks that decrypt to nothing or to no header *)

(** C9.  When [cipher.decrypt] returns empty bytes,
    [handle_data_received] returns at once: the world is the one before,
    with the cipher in the state [decrypt] left it in.  The stage, the
    pending buffer, the remote and the reference to it, the latch and
    both transports are as they were. *)
Theorem empty_plaintext_changes_nothing (w : World) (data : bytes)
    (c c' : Cipher) :
  lh_cipher (local w) = Some c ->
  decrypt c data = (c', Some []) ->
  let w' := handle_data_received data w in
  w' = with_local (set_cipher (Some c')) w
  /\ lh_stage (local w') = lh_stage (local w)
  /\ lh_connect_buffer (local w') = lh_connect_buffer (local w)
  /\ lh_remote (local w') = lh_remote (local w)
  /\ remote w' = remote w
  /\ lh_is_closing (local w') = lh_is_closing (local w)
  /\ upstream_transport w' = upstream_transport w
  /\ client_transport w' = client_transport w.
Proof.
  intros Hc Hd w'. subst w'. unfold handle_data_received.
  rewrite Hc, Hd. repeat split.
Qed.



(** ** Payload order on a session that stays open *)

Lemma written_transport_write (t : Transport) (data : bytes) :
  t_closing t = false ->
  written (transport_write t data) = written t ++ data
  /\ t_closing (transport_write t data) = false.
Proof.
  intros H. unfold transport_write, written. rewrite H. cbn.
  rewrite map_app, concat_app. cbn. rewrite app_nil_r. split; reflexivity.
Qed.

Ltac open_phase H :=
  unfold awaiting_header, connecting, relaying, is_tcp, remote_ready in H;
  cbn in H.

(** With the upstream ready every chunk is written as it arrives. *)
Lemma relaying_step (c : Cipher) (w : World) (e : Event) :
  relaying c w -> keeps_open e = true ->
  match e with
  | ev_data_received data =>
    forall c' plain, decrypt c data = (c', Some plain) ->
      relaying c' (step w e)
      /\ upstream_bytes (step w e) = upstream_bytes w ++ plain
      /\ has_remote (step w e) = true
  | _ =>
    relaying c (step w e) /\ upstream_bytes (step w e) = upstream_bytes w
    /\ has_remote (step w e) = true
  end.
Proof.
  intros R K. break_world w. break_remote r; open_phase R;
    destruct R as (Hc & Hs & Hr & Hy & Hp & Ht); try discriminate; subst.
  destruct ut as [tc to]. cbn in Ht. subst.
  destruct e; try discriminate K.
  - intros c' plain Hd. unfold step, enabled, handle_data_received.
    cbn. rewrite Hd.
    destruct plain as [|b plain].
    + cbn. unfold upstream_bytes. cbn. rewrite app_nil_r.
      repeat split; try reflexivity. exact Hs.
    + destruct Hs as [Hs|Hs]; subst; cbn; unfold upstream_bytes, written;
        cbn; rewrite map_app, concat_app; cbn; rewrite app_nil_r;
        repeat split; try reflexivity; right; reflexivity.
  - cbn. repeat split; try reflexivity. exact Hs.
  - cbn. repeat split; try reflexivity. exact Hs.
  - unfold step, enabled, RemoteTCP_data_received, LocalHandler_write. cbn.
    destruct (encrypt rci data) as [c2 out].
    destruct (is_tcp _); [destruct (t_closing ct)|]; cbn;
      repeat split; try reflexivity; exact Hs.
Qed.

Lemma relaying_run (tr : list Event) :
  forall (w : World) (c : Cipher) (ps : list bytes),
    relaying c w -> forallb keeps_open tr = true ->
    plaintexts c tr = Some ps ->
    upstream_bytes (run w tr) = upstream_bytes w ++ List.concat ps
    /\ (tr <> [] -> has_remote (run w tr) = true).
Proof.
  induction tr as [|e tr IH]; intros w c ps R K P.
  - cbn in P. injection P as <-. cbn. rewrite app_nil_r.
    split; [reflexivity | congruence].
  - cbn in K. apply andb_true_iff in K as [Ke K].
    rewrite run_cons. pose proof (relaying_step c w e R Ke) as S.
    destruct e; try discriminate Ke; cbn in P.
    + destruct (decrypt c data) as [c' [plain|]] eqn:Hd; [|discriminate].
      destruct (plaintexts c' tr) as [ps'|] eqn:P'; [|discriminate].
      injection P as <-.
      destruct (S c' plain eq_refl) as (R' & U & H').
      destruct (IH _ _ _ R' K P') as (U' & H'').
      split.
      * rewrite U', U. cbn. rewrite app_assoc. reflexivity.
      * intros _. destruct tr; [exact H' | apply H''; discriminate].
    + destruct S as (R' & U & H').
      destruct (IH _ _ _ R' K P) as (U' & H'').
      split; [rewrite U', U; reflexivity|].
      intros _. destruct tr; [exact H' | apply H''; discriminate].
    + destruct S as (R' & U & H').
      destruct (IH _ _ _ R' K P) as (U' & H'').
      split; [rewrite U', U; reflexivity|].
      intros _. destruct tr; [exact H' | apply H''; discriminate].
    + destruct S as (R' & U & H').
      destruct (IH _ _ _ R' K P) as (U' & H'').
      split; [rewrite U', U; reflexivity|].
      intros _. destruct tr; [exact H' | apply H''; discriminate].
Qed.









(** ** A chunk that arrives between the drain and the resume *)

Lemma connecting_made (c : Cipher) (w : World) :
  connecting c w ->
  drained c (step w ev_connect_made)
  /\ upstream_bytes (step w ev_connect_made) = lh_connect_buffer (local w)
  /\ lh_connect_buffer (local (step w ev_connect_made))
     = lh_connect_buffer (local w).
Proof.
  intros R. break_world w. break_remote r; open_phase R;
    destruct R as (Ht & Hc & Hs & Hr & Hy & Hp & Hu); try discriminate; subst.
  destruct lproto as [[]|]; try discriminate Ht.
  destruct pc as [pc|]; [|contradiction Hp; reflexivity].
  cbn. unfold upstream_bytes, written. cbn. rewrite app_nil_r.
  repeat split; discriminate.
Qed.

Lemma drained_data (c c' : Cipher) (w : World) (data plain : bytes) :
  drained c w ->
  decrypt c data = (c', Some plain) ->
  drained c' (step w (ev_data_received data))
  /\ upstream_bytes (step w (ev_data_received data)) = upstream_bytes w
  /\ lh_connect_buffer (local (step w (ev_data_received data)))
     = lh_connect_buffer (local w) ++ plain.
Proof.
  intros R Hd. break_world w. unfold drained in R. open_phase R.
  break_remote r; cbn in R;
    destruct R as (Ht & Hc & Hs & Hr & Hy & Hp & Hu); try discriminate; subst.
  destruct lproto as [[]|]; try discriminate Ht.
  unfold step, enabled, handle_data_received. cbn. rewrite Hd.
  destruct plain as [|b plain]; cbn; rewrite ?app_nil_r;
    repeat split; assumption.
Qed.

Lemma drained_returned (c : Cipher) (w : World) :
  drained c w ->
  relaying c (step w ev_connect_returned)
  /\ upstream_bytes (step w ev_connect_returned) = upstream_bytes w
  /\ lh_connect_buffer (local (step w ev_connect_returned))
     = lh_connect_buffer (local w).
Proof.
  intros R. break_world w. unfold drained in R. open_phase R.
  break_remote r; cbn in R;
    destruct R as (Ht & Hc & Hs & Hr & Hy & Hp & Hu); try discriminate; subst.
  destruct pc as [pc|]; [|contradiction Hp; reflexivity].
  cbn. repeat split; try assumption. left; reflexivity.
Qed.

(** C2.  [RemoteTCP.connection_made] writes the buffer to the upstream,
    but [self._remote] is assigned only when the opener resumes.  A client
    chunk delivered between the two finds [self._remote] unset and is
    appended to the buffer, after the drain: it is not in what the
    upstream has, the buffer is used again, and whatever the session
    relays afterwards the upstream gets the drained bytes followed by the
    later chunks, without it. *)
Theorem chunk_after_drain_is_stranded (c c' : Cipher) (w : World)
    (data plain : bytes) :
  connecting c w ->
  decrypt c data = (c', Some plain) ->
  let w' :=
    run w [ev_connect_made; ev_data_received data; ev_connect_returned] in
  upstream_bytes w' = lh_connect_buffer (local w)
  /\ lh_connect_buffer (local w') = lh_connect_buffer (local w) ++ plain
  /\ forall (tr : list Event) (ps : list bytes),
       forallb keeps_open tr = true ->
       plaintexts c' tr = Some ps ->
       upstream_bytes (run w' tr)
       = lh_connect_buffer (local w) ++ List.concat ps.
Proof.
  intros R Hd w'. subst w'. rewrite !run_cons.
  change (run ?x []) with x.
  destruct (connecting_made c w R) as (R1 & U1 & B1).
  destruct (drained_data c c' _ data plain R1 Hd) as (R2 & U2 & B2).
  destruct (drained_returned c' _ R2) as (R3 & U3 & B3).
  split; [congruence|]. split; [congruence|].
  intros tr ps K P.
  destruct (relaying_run tr _ c' ps R3 K P) as [H _].
  rewrite H. congruence.
Qed.

(** ** The reply header *)

(** C5.  When [datagram_received] builds a reply, the byte before the
    packed address is [0x01] whatever the family of the source address:
    also for a source address with no dot and a colon in it, which is
    packed as [AF_INET6]. *)
Theorem reply_address_type_is_always_01 (peername : Peer)
    (data bs : bytes) :
  reply_plaintext peername data = Ok bs ->
  exists addr port : bytes,
    bs = [x01] ++ addr ++ port ++ data
    /\ struct_pack_H (snd peername) = Ok port
    /\ (if contains_char "."%char (fst peername)
        then inet_pton AF_INET (fst peername) = Some addr
        else contains_char ":"%char (fst peername) = true
             /\ inet_pton AF_INET6 (fst peername) = Some addr).
Proof.
  unfold reply_plaintext. intros H.
  destruct (contains_char "." (fst peername)).
  - destruct (inet_pton AF_INET (fst peername)) as [a|]; [|discriminate].
    destruct (struct_pack_H (snd peername)) as [p|]; [|discriminate].
    injection H as <-. exists a, p. repeat split.
  - destruct (contains_char ":" (fst peername)); [|discriminate].
    destruct (inet_pton AF_INET6 (fst peername)) as [a|]; [|discriminate].
    destruct (struct_pack_H (snd peername)) as [p|]; [|discriminate].
    injection H as <-. exists a, p. repeat split.
Qed.

(** ** UDP datagrams *)

Lemma all_fields_some (h : ParsedHeader) :
  all_fields h = true ->
  exists n host p,
    header_length h = Some n /\ dst_addr h = Some host /\ dst_port h = Some p.
Proof.
  unfold all_fields. intros H.
  destruct (header_length h) as [n|];
    [|cbn in H; rewrite !andb_false_r in H; discriminate].
  destruct (dst_addr h) as [host|];
    [|cbn in H; rewrite !andb_false_r in H; discriminate].
  destruct (dst_port h) as [p|];
    [|cbn in H; rewrite !andb_false_r in H; discriminate].
  exists n, host, p. repeat split.
Qed.

Lemma close_open_udp (w : World) :
  is_tcp w = false -> lh_is_closing (local w) = false ->
  lh_remote (local w) = false ->
  close w
  = active_inc (-1)
      (with_local (set_is_closing true) (assign_stage STAGE_DESTROY w)).
Proof.
  intros T C R. close_cases w; cbn in T, C, R; try discriminate;
    evaluate; reflexivity.
Qed.

(** C8.  A UDP session never sends anything upstream: whatever the events,
    it has no remote, has started no connect and its upstream transport
    is untouched.  The first datagram that decrypts to bytes with a header
    [parse_header] accepts sets the stage to ERROR and closes the
    session, since the handler has no [create_datagram_endpoint]. *)
Theorem udp_datagram_never_reaches_upstream (port active made : Z)
    (peername : Peer) (tr : list Event) :
  let u0 := udp_session port active made peername in
  (remote (run u0 tr) = None
   /\ upstream_transport (run u0 tr) = new_transport
   /\ create_connection_calls (run u0 tr) = [])
  /\ forall (c c' : Cipher) (data plain : bytes),
       get_cipher_by_port port TRANSPORT_UDP = Some c ->
       decrypt c data = (c', Some plain) ->
       plain <> [] ->
       all_fields (parse_header plain) = true ->
       let u1 := step u0 (ev_data_received data) in
       stage_writes u1 = [STAGE_INIT; STAGE_ERROR; STAGE_DESTROY]
       /\ local_closing u1 = true
       /\ ACTIVE_CONNECTION_COUNT u1 = active - 1
       /\ upstream_transport u1 = new_transport
       /\ client_transport u1 = new_transport.
Proof.
  intros u0. split.
  - destruct (run_udp_shape tr u0 (udp_session_shape _ _ _ _))
      as ((_ & R & _) & Cc & U).
    rewrite R, Cc, U. repeat split.
  - intros c c' data plain Hc Hd Hp Ha u1.
    destruct (all_fields_some _ Ha) as (n & host & p & Hn & Hh & Hpt).
    assert (u1 = close (assign_stage STAGE_ERROR
                          (with_local (set_cipher (Some c')) u0))) as ->.
    { subst u1 u0. unfold step, enabled, handle_data_received, udp_session,
        handle_connection_made.
      cbn -[close _handle_stage_init]. rewrite Hc, Hd.
      destruct plain as [|b plain]; [contradiction Hp; reflexivity|].
      cbn -[close _handle_stage_init]. unfold _handle_stage_init.
      rewrite Ha, Hn, Hh, Hpt. reflexivity. }
    rewrite close_open_udp by reflexivity.
    repeat split.
Qed.

(** ** Counters over whole runs *)

Lemma do_close_made (w : World) (c : CloseCall) :
  CONNECTION_MADE_COUNT (do_close w c) = CONNECTION_MADE_COUNT w.
Proof. destruct c; close_cases w; evaluate; reflexivity. Qed.

Lemma step_made (w : World) (e : Event) :
  CONNECTION_MADE_COUNT (step w e) - Z.b2z (has_remote (step w e))
  = CONNECTION_MADE_COUNT w - Z.b2z (has_remote w).
Proof.
  unfold_handlers; explore;
    rewrite ?close_is_do_close, ?remote_close_is_do_close;
    repeat match goal with
           | |- context [do_close ?m ?c] =>
             rewrite (do_close_made m c);
             rewrite (proj1 (do_close_frame m c))
           end;
    unfold has_remote in *; cbn -[Z.add Z.sub Z.opp Z.b2z] in *;
    repeat match goal with
           | H : remote _ = _ |- _ => rewrite H in *; clear H
           end;
    cbn -[Z.add Z.sub Z.opp] in *; try lia.
Qed.


Lemma decrements_once_refl (w : World) : decrements_once w w.
Proof.
  unfold decrements_once. repeat split; [|auto].
  destruct (local_closing w); cbn; rewrite app_nil_r; reflexivity.
Qed.

Lemma decrements_once_trans (w1 w2 w3 : World) :
  decrements_once w1 w2 -> decrements_once w2 w3 -> decrements_once w1 w3.
Proof.
  unfold decrements_once.
  intros (I1 & T1 & C1 & L1) (I2 & T2 & C2 & L2).
  repeat split; try congruence; [|auto].
  rewrite I2, I1, T1, C1, <- app_assoc. f_equal.
  destruct (local_closing w1) eqn:E1.
  - specialize (L1 eq_refl). rewrite L1 in *. reflexivity.
  - destruct (local_closing w2) eqn:E2.
    + rewrite (L2 eq_refl). cbn.
      destruct (is_tcp w1 && has_cipher w1)%bool eqn:E;
        cbn; rewrite ?E; reflexivity.
    + cbn. destruct (local_closing w3); reflexivity.
Qed.

Lemma decrements_once_do_close (w : World) (c : CloseCall) :
  decrements_once w (do_close w c).
Proof.
  unfold decrements_once.
  destruct (do_close_frame w c) as (_ & _ & T & C & _).
  destruct (do_close_latches w c) as (L & _).
  pose proof (do_close_incr w c) as I.
  repeat split; try assumption.
  intros H. rewrite L, H. reflexivity.
Qed.

Ltac quiet :=
  unfold decrements_once, local_closing, is_tcp, has_cipher;
  cbn -[Z.add Z.sub Z.opp app];
  repeat split; auto;
  repeat match goal with
         | H : _ = _ |- _ => rewrite H
         end;
  cbn -[Z.add Z.sub Z.opp app];
  repeat match goal with
         | |- context [negb ?b && ?b] => destruct b; cbn -[app]
         | |- context [lh_is_closing ?l] => destruct (lh_is_closing l); cbn -[app]
         end;
  rewrite ?app_nil_r; try reflexivity.

Ltac through_close :=
  rewrite ?close_is_do_close, ?remote_close_is_do_close;
  lazymatch goal with
  | |- decrements_once _ (do_close ?m ?c) =>
    apply (decrements_once_trans _ m);
    [|apply decrements_once_do_close]
  | _ => idtac
  end.

Lemma step_decrements_once (w : World) (e : Event) :
  decrements_once w (step w e).
Proof.
  unfold_handlers; explore; through_close; quiet.
Qed.

(** Whatever happens to a session, [incr_user_tcp_num(-1)] is called at
    most once: the calls after any events are the calls before them with
    one [-1] added if the handler's latch was set by these events, on TCP
    and with a cipher.  The code never calls it with another argument. *)
Theorem tcp_counter_decremented_once_per_run (w : World)
    (tr : list Event) :
  incr_user_tcp_num_calls (run w tr)
  = incr_user_tcp_num_calls w
    ++ (if (negb (local_closing w) && local_closing (run w tr)
            && is_tcp w && has_cipher w)%bool
        then [-1] else []).
Proof.
  enough (decrements_once w (run w tr)) as H by apply H.
  revert w. induction tr as [|e tr IH]; intros w.
  - apply decrements_once_refl.
  - rewrite run_cons.
    apply (decrements_once_trans _ (step w e));
      [apply step_decrements_once | apply IH].
Qed.

(** ** One connect per session *)









(** ** After the close *)

Lemma do_close_shut (w : World) (c : CloseCall) :
  shut w -> shut (do_close w c).
Proof.
  unfold shut, is_tcp, local_closing, has_remote.
  destruct c; close_cases w; evaluate;
    intros (H1 & H2 & H3 & H4 & H5 & H6); repeat split;
    try discriminate; auto.
Qed.

Lemma established_shut (w : World) (c : CloseCall) :
  established w -> shut (do_close w c).
Proof.
  unfold established, shut, is_tcp, local_closing, remote_closing,
    has_remote.
  destruct c; close_cases w; evaluate;
    intros (H1 & H2 & H3 & H4 & H5 & H6 & r & H7 & H8); repeat split;
    try discriminate; auto; try (injection H7 as <-; discriminate H8).
Qed.

Ltac past_close w :=
  rewrite ?close_is_do_close, ?remote_close_is_do_close;
  lazymatch goal with
  | |- _ -> shut (do_close ?m ?c) /\ _ /\ _ =>
    let H := fresh in
    let S := fresh in
    let U := fresh in
    let C := fresh in
    intros H;
    destruct (do_close_untouched m c) as (_ & _ & _ & _ & _ & U & C & _);
    rewrite U, C; clear U C;
    enough (shut m
            /\ t_out (client_transport m) = t_out (client_transport w)
            /\ t_out (upstream_transport m) = t_out (upstream_transport w))
      as (S & U & C)
      by (split; [apply do_close_shut, S | split; assumption]);
    revert H
  | _ => idtac
  end.

Lemma step_shut (w : World) (e : Event) :
  shut w ->
  shut (step w e)
  /\ t_out (client_transport (step w e)) = t_out (client_transport w)
  /\ t_out (upstream_transport (step w e)) = t_out (upstream_transport w).
Proof.
  unfold shut at 1.
  unfold_handlers; explore; past_close w;
    unfold shut, is_tcp, local_closing, has_remote in *;
    cbn -[Z.add Z.sub Z.opp app] in *;
    repeat match goal with
           | H : _ = _ |- _ => rewrite H
           end;
    cbn -[Z.add Z.sub Z.opp app];
    intros (H1 & H2 & H3 & H4 & H5 & H6); repeat split;
    try discriminate; try congruence; auto.
Qed.

Lemma run_shut (tr : list Event) (w : World) :
  shut w ->
  shut (run w tr)
  /\ t_out (client_transport (run w tr)) = t_out (client_transport w)
  /\ t_out (upstream_transport (run w tr)) = t_out (upstream_transport w).
Proof.
  revert w. induction tr as [|e tr IH]; intros w S; [auto|].
  rewrite run_cons.
  destruct (step_shut w e S) as (S' & C & U).
  destruct (IH _ S') as (S'' & C' & U').
  split; [exact S''|]. split; congruence.
Qed.

(** Once either half of an established TCP session has been closed,
    nothing is written to the client or to the upstream any more,
    whatever events follow: chunks from the client and from the upstream
    are dropped, and the stage stays DESTROY with the latch set. *)
Theorem no_bytes_after_close (w : World) (c : CloseCall)
    (tr : list Event) :
  established w ->
  let w' := run (do_close w c) tr in
  client_bytes w' = client_bytes w
  /\ upstream_bytes w' = upstream_bytes w
  /\ local_closing w' = true
  /\ lh_stage (local w') = Some STAGE_DESTROY.
Proof.
  intros E w'. subst w'.
  destruct (run_shut tr _ (established_shut w c E))
    as ((_ & L & S & _) & C & U).
  destruct (do_close_untouched w c) as (_ & _ & _ & _ & _ & U0 & C0 & _).
  unfold client_bytes, upstream_bytes, written.
  rewrite C, U, C0, U0. repeat split; assumption.
Qed.

(** ** Replies on their way to the client *)

Lemma relaying_step_client (c : Cipher) (w : World) (e : Event)
    (rt : RemoteTCP) :
  relaying c w -> remote w = Some rt ->
  t_closing (client_transport w) = false ->
  keeps_open e = true ->
  (forall data, e = ev_data_received data ->
     exists c' plain, decrypt c data = (c', Some plain)) ->
  exists r' : RemoteTCP,
    remote (step w e) = Some r'
    /\ t_closing (client_transport (step w e)) = false
    /\ match e with
       | ev_remote_data_received data =>
         rt_cipher r' = fst (encrypt (rt_cipher rt) data)
         /\ client_bytes (step w e)
            = client_bytes w ++ snd (encrypt (rt_cipher rt) data)
       | _ =>
         rt_cipher r' = rt_cipher rt
         /\ client_bytes (step w e) = client_bytes w
       end.
Proof.
  intros R Hr Hc K D. break_world w. open_phase R. cbn in Hr, Hc. subst r.
  destruct R as (Hci & Hs & Hlr & Hy & Hp & Ht). subst.
  destruct ut as [tc to]. destruct ct as [cc' co]. cbn in Ht, Hc. subst.
  destruct rt as [rtr rci rre rcl]. cbn in Hy. subst.
  destruct e; try discriminate K.
  - destruct (D data eq_refl) as (c' & plain & Hd).
    unfold step, enabled, handle_data_received. cbn. rewrite Hd.
    destruct plain as [|b plain].
    + cbn. eexists. repeat split.
    + destruct Hs as [Hs|Hs]; subst; cbn; eexists; repeat split.
  - cbn. eexists. repeat split.
  - cbn. eexists. repeat split.
  - unfold step, enabled, RemoteTCP_data_received, LocalHandler_write.
    cbn. destruct (encrypt rci data) as [c2 out]. cbn.
    destruct (is_tcp _); cbn; eexists; repeat split;
      unfold client_bytes, written; cbn;
      rewrite map_app, concat_app; cbn; rewrite app_nil_r; reflexivity.
Qed.

Lemma relaying_run_client (tr : list Event) :
  forall (w : World) (c : Cipher) (r : RemoteTCP) (ps : list bytes),
    relaying c w -> remote w = Some r ->
    t_closing (client_transport w) = false ->
    forallb keeps_open tr = true ->
    plaintexts c tr = Some ps ->
    client_bytes (run w tr)
    = client_bytes w ++ List.concat (ciphertexts (rt_cipher r) tr).
Proof.
  induction tr as [|e tr IH]; intros w c r ps R Hr Hc K P.
  - cbn. rewrite app_nil_r. reflexivity.
  - cbn in K. apply andb_true_iff in K as [Ke K].
    rewrite run_cons.
    pose proof (relaying_step c w e R Ke) as S.
    pose proof (relaying_step_client c w e r R Hr Hc Ke) as S'.
    destruct e; try discriminate Ke; cbn in P.
    + destruct (decrypt c data) as [c' [plain|]] eqn:Hd; [|discriminate].
      destruct (plaintexts c' tr) as [ps'|] eqn:P'; [|discriminate].
      destruct (S c' plain eq_refl) as (R' & _).
      destruct S' as (r' & Hr' & Hc' & Ci & B).
      { intros d [= <-]. rewrite Hd. eauto. }
      rewrite (IH _ c' r' ps' R' Hr' Hc' K P'), B, Ci. reflexivity.
    + destruct S as (R' & _).
      destruct S' as (r' & Hr' & Hc' & Ci & B); [discriminate|].
      rewrite (IH _ c r' ps R' Hr' Hc' K P), B, Ci. reflexivity.
    + destruct S as (R' & _).
      destruct S' as (r' & Hr' & Hc' & Ci & B); [discriminate|].
      rewrite (IH _ c r' ps R' Hr' Hc' K P), B, Ci. reflexivity.
    + destruct S as (R' & _).
      destruct S' as (r' & Hr' & Hc' & Ci & B); [discriminate|].
      rewrite (IH _ c r' ps R' Hr' Hc' K P), B, Ci.
      cbn [ciphertexts]. destruct (encrypt (rt_cipher r) data) as [c2 out].
      cbn. rewrite app_assoc. reflexivity.
Qed.

(** With the upstream ready and both transports open, a session relays in
    both directions at once and in order: the upstream gets the client's
    decrypted chunks as they arrive, the client gets what the remote's
    cipher made of the upstream's chunks, each once, whatever the
    interleaving. *)
Theorem ready_session_relays_both_ways (c : Cipher) (w : World)
    (r : RemoteTCP) (tr : list Event) (ps : list bytes) :
  relaying c w -> remote w = Some r ->
  t_closing (client_transport w) = false ->
  forallb keeps_open tr = true ->
  plaintexts c tr = Some ps ->
  upstream_bytes (run w tr) = upstream_bytes w ++ List.concat ps
  /\ client_bytes (run w tr)
     = client_bytes w ++ List.concat (ciphertexts (rt_cipher r) tr).
Proof.
  intros R Hr Hc K P. split.
  - apply (relaying_run tr w c ps R K P).
  - apply (relaying_run_client tr w c r ps R Hr Hc K P).
Qed.

(** ** Chunks that cannot be used *)

Lemma close_latched (w : World) :
  local_closing w = true -> close w = assign_stage STAGE_DESTROY w.
Proof.
  unfold local_closing. intros H. close_cases w; cbn in H;
    try discriminate; evaluate; reflexivity.
Qed.

Lemma close_outcome (w : World) :
  lh_stage (local (close w)) = Some STAGE_DESTROY
  /\ local_closing (close w) = true
  /\ upstream_bytes (close w) = upstream_bytes w
  /\ client_bytes (close w) = client_bytes w
  /\ lh_connect_buffer (local (close w)) = lh_connect_buffer (local w)
  /\ create_connection_calls (close w) = create_connection_calls w.
Proof.
  split; [apply close_stage|].
  rewrite close_is_do_close.
  destruct (do_close_latches w call_local_close) as (L & _).
  destruct (do_close_untouched w call_local_close)
    as (_ & Cc & _ & B & _ & U & C & _).
  unfold upstream_bytes, client_bytes, written. rewrite L, U, C.
  cbn. rewrite orb_true_r. repeat split; assumption.
Qed.

(** A chunk the cipher cannot decrypt, or a chunk for a handler that got
    no cipher for its port, closes the session in whatever stage it is:
    the stage is DESTROY and the latch set, nothing is forwarded in
    either direction, nothing joins the buffer and no connect starts. *)
Theorem undecryptable_chunk_closes_session (w : World) (data : bytes) :
  lh_cipher (local w) = None
  \/ (exists c c' : Cipher,
        lh_cipher (local w) = Some c /\ decrypt c data = (c', None)) ->
  let w' := handle_data_received data w in
  lh_stage (local w') = Some STAGE_DESTROY
  /\ local_closing w' = true
  /\ upstream_bytes w' = upstream_bytes w
  /\ client_bytes w' = client_bytes w
  /\ lh_connect_buffer (local w') = lh_connect_buffer (local w)
  /\ create_connection_calls w' = create_connection_calls w.
Proof.
  intros H w'. subst w'. unfold handle_data_received.
  destruct H as [H|(c & c' & H & Hd)]; rewrite H.
  - apply close_outcome.
  - rewrite Hd. apply (close_outcome (with_local (set_cipher (Some c')) w)).
Qed.

Lemma data_on_closed_handler (w : World) (data : bytes) :
  local_closing w = true ->
  lh_stage (local w) = Some STAGE_DESTROY ->
  let w' := handle_data_received data w in
  metrics_and_transports w' = metrics_and_transports w
  /\ local_closing w' = true
  /\ lh_stage (local w') = Some STAGE_DESTROY
  /\ remote w' = remote w
  /\ lh_connect_buffer (local w') = lh_connect_buffer (local w)
  /\ pending_connect w' = pending_connect w.
Proof.
  intros L S w'. subst w'. unfold handle_data_received.
  destruct (lh_cipher (local w)) as [c|].
  - destruct (decrypt c data) as [c' [[|b plain]|]].
    + cbn. repeat split; assumption.
    + cbn [local with_local set_cipher lh_stage]. rewrite S.
      rewrite close_latched by exact L. cbn. repeat split; assumption.
    + rewrite close_latched by exact L. cbn. repeat split; assumption.
  - rewrite close_latched by exact L. cbn. repeat split; assumption.
Qed.

(** A handler that has been closed takes no more data: whatever the chunk
    and whatever the cipher makes of it, metrics, transports, buffer and
    remote stay as they are and the stage stays DESTROY. *)
Theorem closed_handler_ignores_data (w : World) (data : bytes) :
  local_closing w = true ->
  lh_stage (local w) = Some STAGE_DESTROY ->
  let w' := handle_data_received data w in
  metrics_and_transports w' = metrics_and_transports w
  /\ local_closing w' = true
  /\ lh_stage (local w') = Some STAGE_DESTROY
  /\ remote w' = remote w
  /\ lh_connect_buffer (local w') = lh_connect_buffer (local w)
  /\ pending_connect w' = pending_connect w.
Proof. exact (data_on_closed_handler w data). Qed.

(** ** A connect that completes after the client has left *)

Lemma step_left_open (w : World) (e : Event) :
  upstream_holds e = true ->
  local_closing w = true -> lh_stage (local w) = Some STAGE_DESTROY ->
  pending_connect w = None ->
  (local_closing (step w e) = true
   /\ lh_stage (local (step w e)) = Some STAGE_DESTROY
   /\ pending_connect (step w e) = None)
  /\ remote_closing (step w e) = remote_closing w
  /\ upstream_transport (step w e) = upstream_transport w
  /\ ACTIVE_CONNECTION_COUNT (step w e) = ACTIVE_CONNECTION_COUNT w.
Proof.
  intros K L S P. destruct e; try discriminate K.
  - destruct (data_on_closed_handler w data L S) as (M & L' & S' & R & _ & P').
    unfold step, enabled. cbn [negb].
    unfold metrics_and_transports in M. injection M as A _ _ _ U.
    unfold remote_closing. rewrite R, P'. repeat split; assumption.
  - unfold step, enabled, handle_eof_received. cbn [negb].
    rewrite close_latched by exact L. repeat split; assumption.
  - unfold step, enabled, handle_connection_lost. cbn [negb].
    rewrite close_latched by exact L. repeat split; assumption.
  - unfold step, enabled. rewrite P. repeat split; assumption.
  - unfold step, enabled. rewrite P. repeat split; assumption.
  - unfold step, enabled. rewrite P. repeat split; assumption.
  - unfold step, enabled, RemoteTCP_data_received, LocalHandler_write,
      remote_closing.
    destruct (remote w) as [r|] eqn:Hr; cbn [negb];
      [|rewrite Hr; repeat split; assumption].
    destruct (encrypt (rt_cipher r) data) as [c2 out].
    destruct (is_tcp _); [destruct (t_closing _)|]; cbn;
      repeat split; assumption.
Qed.

Lemma run_left_open (tr : list Event) (w : World) :
  forallb upstream_holds tr = true ->
  local_closing w = true -> lh_stage (local w) = Some STAGE_DESTROY ->
  pending_connect w = None ->
  remote_closing (run w tr) = remote_closing w
  /\ upstream_transport (run w tr) = upstream_transport w
  /\ ACTIVE_CONNECTION_COUNT (run w tr) = ACTIVE_CONNECTION_COUNT w.
Proof.
  revert w. induction tr as [|e tr IH]; intros w K L S P; [auto|].
  cbn in K. apply andb_true_iff in K as [Ke K]. rewrite run_cons.
  destruct (step_left_open w e Ke L S P) as ((L' & S' & P') & R & U & A).
  destruct (IH _ K L' S' P') as (R' & U' & A').
  repeat split; congruence.
Qed.

Lemma connecting_client_left (c : Cipher) (w : World) :
  connecting c w -> local_closing w = false ->
  let w' := run w [ev_eof_received; ev_connect_made; ev_connect_returned] in
  (local_closing w' = true /\ lh_stage (local w') = Some STAGE_DESTROY
   /\ pending_connect w' = None)
  /\ (has_remote w' = true /\ remote_closing w' = false
      /\ t_closing (upstream_transport w') = false)
  /\ upstream_bytes w' = lh_connect_buffer (local w)
  /\ ACTIVE_CONNECTION_COUNT w' = ACTIVE_CONNECTION_COUNT w.
Proof.
  intros R L w'. subst w'. break_world w. break_remote r; open_phase R;
    destruct R as (Ht & Hc & Hs & Hr & Hy & Hp & Hu); try discriminate.
  cbn in L. subst.
  destruct lproto as [[]|]; try discriminate Ht.
  destruct pc as [pc|]; [|contradiction Hp; reflexivity].
  destruct lt; evaluate; repeat split; try lia; cbn; apply app_nil_r.
Qed.

(** When the client hangs up while the upstream connect is in flight,
    the handler closes but the connect goes on.  If it succeeds,
    [RemoteTCP.connection_made] still writes the buffered bytes to the
    upstream and counts the connection: the session is left with a closed
    handler and an open remote, and the gauge where it was before the
    hang-up.  No later event from the client side closes that remote;
    only the upstream's own end of file or loss does. *)
Theorem connect_after_client_left_stays_open (c : Cipher) (w : World)
    (tr : list Event) :
  connecting c w -> local_closing w = false ->
  forallb upstream_holds tr = true ->
  let w' := run w [ev_eof_received; ev_connect_made; ev_connect_returned] in
  (local_closing w' = true /\ lh_stage (local w') = Some STAGE_DESTROY)
  /\ (has_remote w' = true /\ remote_closing w' = false
      /\ t_closing (upstream_transport w') = false)
  /\ upstream_bytes w' = lh_connect_buffer (local w)
  /\ ACTIVE_CONNECTION_COUNT w' = ACTIVE_CONNECTION_COUNT w
  /\ (remote_closing (run w' tr) = false
      /\ t_closing (upstream_transport (run w' tr)) = false
      /\ ACTIVE_CONNECTION_COUNT (run w' tr) = ACTIVE_CONNECTION_COUNT w).
Proof.
  intros R L K w'.
  destruct (connecting_client_left c w R L)
    as ((L' & S' & P') & (H & Rc & U) & B & A).
  fold w' in L', S', P', H, Rc, U, B, A.
  destruct (run_left_open tr w' K L' S' P') as (Rc' & U' & A').
  repeat split; congruence.
Qed.

(** ** The UDP acceptor's registry *)

Lemma Peer_eqb_eq (p q : Peer) : Peer_eqb p q = true <-> p = q.
Proof.
  unfold Peer_eqb. destruct p as [a n], q as [b m]. cbn.
  rewrite andb_true_iff, String.eqb_eq, Z.eqb_eq.
  split; [intros [-> ->]; reflexivity | intros [= -> ->]; auto].
Qed.

Lemma Peer_eqb_refl (p : Peer) : Peer_eqb p p = true.
Proof. apply Peer_eqb_eq. reflexivity. Qed.

Lemma Peer_eqb_neq (p q : Peer) : p <> q -> Peer_eqb p q = false.
Proof.
  intros N. destruct (Peer_eqb p q) eqn:E; [|reflexivity].
  apply Peer_eqb_eq in E. contradiction.
Qed.

Lemma dict_get_set_same (k : Peer) (v : World) (d : list (Peer * World)) :
  dict_get k (dict_set k v d) = Some v.
Proof.
  induction d as [|[k' v'] d IH]; cbn.
  - rewrite Peer_eqb_refl. reflexivity.
  - destruct (Peer_eqb k' k) eqn:E; cbn.
    + rewrite Peer_eqb_refl. reflexivity.
    + rewrite E. exact IH.
Qed.

Lemma dict_get_set_other (k k' : Peer) (v : World)
    (d : list (Peer * World)) :
  k' <> k -> dict_get k' (dict_set k v d) = dict_get k' d.
Proof.
  intros N. induction d as [|[a v'] d IH]; cbn.
  - rewrite (Peer_eqb_neq k k') by congruence. reflexivity.
  - destruct (Peer_eqb a k) eqn:E; cbn.
    + apply Peer_eqb_eq in E. subst a.
      rewrite (Peer_eqb_neq k k') by congruence. reflexivity.
    + destruct (Peer_eqb a k'); [reflexivity | exact IH].
Qed.

Lemma datagram_registers (u : LocalUDP) (data : bytes) (p q : Peer) :
  dict_get q (lu_protocols u) <> None ->
  dict_get q (lu_protocols (LocalUDP_datagram_received data p u)) <> None.
Proof.
  intros H. unfold LocalUDP_datagram_received. cbn [lu_protocols].
  destruct (Peer_eqb q p) eqn:E.
  - apply Peer_eqb_eq in E. subst q. rewrite dict_get_set_same. discriminate.
  - rewrite dict_get_set_other; [exact H|].
    intros ->. rewrite Peer_eqb_refl in E. discriminate.
Qed.

(** [LocalUDP.datagram_received] keeps one handler per client endpoint:
    a datagram from a known endpoint goes to the handler registered for
    it, one from a new endpoint to a fresh handler that is registered
    under it; the handlers of all other endpoints are left as they are;
    and no entry is ever removed, whatever datagrams follow. *)
Theorem udp_registry_one_handler_per_peer (u : LocalUDP) (data : bytes)
    (p q : Peer) (ds : list (bytes * Peer)) :
  let u' := LocalUDP_datagram_received data p u in
  dict_get p (lu_protocols u')
  = Some (handle_data_received data
            match dict_get p (lu_protocols u) with
            | Some w => shared_in u w
            | None =>
              handle_connection_made TRANSPORT_UDP p
                (shared_in u (fresh_world (lu_port u) 0 0))
            end)
  /\ (q <> p -> dict_get q (lu_protocols u') = dict_get q (lu_protocols u))
  /\ (dict_get q (lu_protocols u) <> None ->
      dict_get q (lu_protocols (udp_serve u ds)) <> None).
Proof.
  intros u'. subst u'. split; [|split].
  - unfold LocalUDP_datagram_received. cbn [lu_protocols].
    apply dict_get_set_same.
  - intros N. unfold LocalUDP_datagram_received. cbn [lu_protocols].
    apply dict_get_set_other, N.
  - revert u. unfold udp_serve.
    induction ds as [|[d a] ds IH]; intros u H; [exact H|].
    cbn [fold_left fst snd]. apply IH, datagram_registers, H.
Qed.

(** ** The gauge at the UDP acceptor *)

Lemma closed_handlers_set (k : Peer) (v : World) (d : list (Peer * World)) :
  closed_handlers (dict_set k v d)
  = closed_handlers d
    - match dict_get k d with
      | Some w => Z.b2z (local_closing w)
      | None => 0
      end
    + Z.b2z (local_closing v).
Proof.
  induction d as [|[k' v'] d IH]; cbn [dict_set dict_get closed_handlers].
  - lia.
  - destruct (Peer_eqb k' k); cbn [closed_handlers]; lia.
Qed.

Lemma dict_get_Forall (P : World -> Prop) (k : Peer) (w : World)
    (d : list (Peer * World)) :
  Forall (fun kv => P (snd kv)) d -> dict_get k d = Some w -> P w.
Proof.
  induction 1 as [|[k' v'] d H F IH]; cbn; [discriminate|].
  destruct (Peer_eqb k' k); [intros [= <-]; exact H | exact IH].
Qed.

Lemma dict_set_Forall (P : World -> Prop) (k : Peer) (w : World)
    (d : list (Peer * World)) :
  Forall (fun kv => P (snd kv)) d -> P w ->
  Forall (fun kv => P (snd kv)) (dict_set k w d).
Proof.
  induction 1 as [|[k' v'] d H F IH]; intros Pw; cbn.
  - constructor; [exact Pw | constructor].
  - destruct (Peer_eqb k' k); constructor; auto.
Qed.

Lemma udp_data_gauge (w : World) (data : bytes) :
  udp_shape w ->
  udp_shape (handle_data_received data w)
  /\ ACTIVE_CONNECTION_COUNT (handle_data_received data w)
     = ACTIVE_CONNECTION_COUNT w + Z.b2z (local_closing w)
       - Z.b2z (local_closing (handle_data_received data w))
  /\ CONNECTION_MADE_COUNT (handle_data_received data w)
     = CONNECTION_MADE_COUNT w.
Proof.
  intros S.
  change (handle_data_received data w) with (step w (ev_data_received data)).
  destruct (step_udp_shape w (ev_data_received data) S) as (S' & _).
  pose proof (step_balance w (ev_data_received data)) as B.
  pose proof (step_made w (ev_data_received data)) as M.
  split; [exact S'|].
  destruct S as (_ & R & _). destruct S' as (_ & R' & _).
  unfold live_halves, has_remote in *. rewrite R, R' in *.
  destruct (local_closing w), (local_closing (step w (ev_data_received data)));
    cbn in *; split; lia.
Qed.

Lemma datagram_gauge (u : LocalUDP) (data : bytes) (p : Peer) (a m : Z) :
  Forall (fun kv => udp_shape (snd kv)) (lu_protocols u) ->
  lu_active u = a - closed_handlers (lu_protocols u) ->
  lu_made u = m ->
  let u' := LocalUDP_datagram_received data p u in
  Forall (fun kv => udp_shape (snd kv)) (lu_protocols u')
  /\ lu_active u' = a - closed_handlers (lu_protocols u')
  /\ lu_made u' = m.
Proof.
  intros F A M u'. subst u'. unfold LocalUDP_datagram_received.
  cbn [lu_protocols lu_active lu_made].
  set (h := match dict_get p (lu_protocols u) with
            | Some w => shared_in u w
            | None => _
            end).
  assert (udp_shape h /\ ACTIVE_CONNECTION_COUNT h = lu_active u
          /\ CONNECTION_MADE_COUNT h = lu_made u
          /\ Z.b2z (local_closing h)
             = match dict_get p (lu_protocols u) with
               | Some w => Z.b2z (local_closing w)
               | None => 0
               end) as (S & Ha & Hm & Hc).
  { subst h. destruct (dict_get p (lu_protocols u)) as [w|] eqn:G.
    - pose proof (dict_get_Forall udp_shape p w _ F G) as (T & R & P & L).
      repeat split; assumption.
    - repeat split. }
  destruct (udp_data_gauge h data S) as (S' & A' & M').
  split; [apply dict_set_Forall; assumption|].
  rewrite closed_handlers_set, A', M', Ha, Hm, <- Hc. split; lia.
Qed.

(** No UDP path adds to the active-connection gauge and every close of a
    UDP handler takes one off: after any datagrams from any endpoints the
    gauge is its value when the acceptor started minus the number of
    closed handlers in the registry.  The connections-made counter is not
    touched. *)
Theorem udp_acceptor_gauge_only_falls (port active made : Z)
    (ds : list (bytes * Peer)) :
  let u := udp_serve (LocalUDP_start port active made) ds in
  lu_active u = active - closed_handlers (lu_protocols u)
  /\ 0 <= closed_handlers (lu_protocols u)
  /\ lu_made u = made.
Proof.
  intros u.
  assert (forall (ds : list (bytes * Peer)) (u : LocalUDP),
            Forall (fun kv => udp_shape (snd kv)) (lu_protocols u) ->
            lu_active u = active - closed_handlers (lu_protocols u) ->
            lu_made u = made ->
            lu_active (udp_serve u ds)
            = active - closed_handlers (lu_protocols (udp_serve u ds))
            /\ lu_made (udp_serve u ds) = made) as H.
  { clear. unfold udp_serve.
    induction ds as [|[d a] ds IH]; intros u F A M; [auto|].
    cbn [fold_left fst snd].
    destruct (datagram_gauge u d a active made F A M) as (F' & A' & M').
    apply IH; assumption. }
  destruct (H ds (LocalUDP_start port active made)) as (A & M);
    [constructor
    |unfold LocalUDP_start; cbn [lu_active lu_protocols closed_handlers]; lia
    |reflexivity|].
  fold u in A, M. split; [exact A|]. split; [|exact M].
  clear. induction (lu_protocols u) as [|[k w] d IH];
    cbn [closed_handlers]; [lia|].
  destruct (local_closing w); cbn [Z.b2z]; lia.
Qed.

(** A UDP endpoint whose handler has been closed is never served again:
    its entry stays in the registry, every later datagram from it goes to
    the closed handler, and the socket and the metrics are left as they
    are. *)
Theorem closed_udp_peer_is_never_served_again (u : LocalUDP) (p : Peer)
    (w : World) (data : bytes) :
  dict_get p (lu_protocols u) = Some w ->
  local_closing w = true ->
  lh_stage (local w) = Some STAGE_DESTROY ->
  let u' := LocalUDP_datagram_received data p u in
  lu_transport u' = lu_transport u
  /\ lu_active u' = lu_active u
  /\ lu_made u' = lu_made u
  /\ exists w' : World,
       dict_get p (lu_protocols u') = Some w'
       /\ local_closing w' = true
       /\ lh_stage (local w') = Some STAGE_DESTROY.
Proof.
  intros G L S u'. subst u'. unfold LocalUDP_datagram_received.
  rewrite G. cbn [lu_protocols lu_active lu_made lu_transport].
  destruct (data_on_closed_handler (shared_in u w) data L S)
    as (M & L' & S' & _).
  unfold metrics_and_transports in M. injection M as A Mc _ C _.
  repeat split; try assumption.
  eexists. split; [apply dict_get_set_same|]. split; assumption.
Qed.

(** ** RemoteUDP on its own *)

(** When [RemoteUDP.datagram_received] returns, the datagram came from the
    endpoint the remote is connected to and the remote still has its
    handler; the reply was built by [reply_plaintext], encrypted once
    with the remote's cipher, and handed to the handler's [write]: on a
    UDP session with its socket open that is exactly one datagram more,
    addressed to the client's endpoint.  The handler itself is left as
    it was. *)
Theorem udp_reply_reaches_the_client_once (u u' : RemoteUDP)
    (w w' : World) (data : bytes) (peername : Peer) :
  RemoteUDP_datagram_received data peername (u, w) = Ok (u', w') ->
  (ru_peername u = Some peername /\ ru_local u = true)
  /\ exists plain : bytes,
       reply_plaintext peername data = Ok plain
       /\ ru_cipher u' = fst (encrypt (ru_cipher u) plain)
       /\ w' = LocalHandler_write (snd (encrypt (ru_cipher u) plain)) w
       /\ local w' = local w
       /\ (is_tcp w = false ->
           t_closing (client_transport w) = false ->
           t_out (client_transport w')
           = t_out (client_transport w)
             ++ [(lh_peername (local w),
                  snd (encrypt (ru_cipher u) plain))]).
Proof.
  unfold RemoteUDP_datagram_received.
  destruct (ru_peername u) as [p|] eqn:Hp; [|discriminate].
  destruct (Peer_eqb p peername) eqn:E; [|discriminate].
  apply Peer_eqb_eq in E. subst p.
  destruct (reply_plaintext peername data) as [plain|]; [|discriminate].
  destruct (encrypt (ru_cipher u) plain) as [c' out] eqn:He.
  cbn [ru_local]. destruct (ru_local u) eqn:Hl; [|discriminate].
  intros [= <- <-]. split; [split; reflexivity|].
  exists plain. rewrite He. cbn [fst snd ru_cipher].
  repeat split.
  - unfold LocalHandler_write.
    destruct (is_tcp w); [destruct (t_closing (client_transport w))|];
      reflexivity.
  - intros T C. unfold LocalHandler_write, transport_sendto.
    rewrite T, C. reflexivity.
Qed.

(** [RemoteUDP.datagram_received] raises, and sends nothing, when the
    datagram is not from the endpoint the remote is connected to
    (the assertion), when the source address has neither a dot nor a
    colon, when it has a dot and [inet_pton] does not read it as IPv4
    (the dot is tested first, also for an address with colons), and when
    the remote has been closed: [close] deleted the handler it would
    write to. *)
Theorem udp_reply_raises (u : RemoteUDP) (w : World) (data : bytes)
    (peername : Peer) :
  (ru_peername u <> Some peername ->
   RemoteUDP_datagram_received data peername (u, w) = Raise AssertionError)
  /\ (ru_peername u = Some peername ->
      contains_char "."%char (fst peername) = false ->
      contains_char ":"%char (fst peername) = false ->
      RemoteUDP_datagram_received data peername (u, w) = Raise AddrNotValid)
  /\ (ru_peername u = Some peername ->
      contains_char "."%char (fst peername) = true ->
      inet_pton AF_INET (fst peername) = None ->
      RemoteUDP_datagram_received data peername (u, w) = Raise OSError)
  /\ (ru_local u = false ->
      exists e : Exn,
        RemoteUDP_datagram_received data peername (u, w) = Raise e).
Proof.
  unfold RemoteUDP_datagram_received. repeat split.
  - intros N. destruct (ru_peername u) as [p|]; [|reflexivity].
    destruct (Peer_eqb p peername) eqn:E; [|reflexivity].
    apply Peer_eqb_eq in E. subst p. contradiction N. reflexivity.
  - intros -> D C. rewrite Peer_eqb_refl.
    unfold reply_plaintext. rewrite D, C. reflexivity.
  - intros -> D N. rewrite Peer_eqb_refl.
    unfold reply_plaintext. rewrite D, N. reflexivity.
  - intros L. destruct (ru_peername u) as [p|]; [|eauto].
    destruct (Peer_eqb p peername); [|eauto].
    destruct (reply_plaintext peername data) as [plain|e]; [|eauto].
    destruct (encrypt (ru_cipher u) plain) as [c' out].
    cbn [ru_local]. rewrite L. eauto.
Qed.

(** [RemoteUDP.connection_made] sends the payload the remote was created
    with, once, on its new transport.  After [close] the remote is
    latched, its transport is closing and its handler reference is gone:
    [write] then sends nothing and another [close] changes nothing; the
    session is not touched by any of it. *)
Theorem RemoteUDP_sends_once_and_nothing_after_close (u : RemoteUDP)
    (w : World) (peername : Peer) (data : bytes) :
  ru_is_closing u = false ->
  let u1 := RemoteUDP_connection_made peername u in
  let u2 := fst (RemoteUDP_close (u1, w)) in
  ru_transport u1 = Some (mkTransport false [(None, ru_data u)])
  /\ ru_transport u2 = Some (mkTransport true [(None, ru_data u)])
  /\ (ru_is_closing u2 = true /\ ru_local u2 = false)
  /\ RemoteUDP_write data u2 = u2
  /\ RemoteUDP_close (u2, w) = (u2, w)
  /\ snd (RemoteUDP_close (u1, w)) = w.
Proof.
  intros C u1 u2. subst u1 u2.
  unfold RemoteUDP_connection_made, RemoteUDP_close, RemoteUDP_write.
  cbn. rewrite C. cbn. repeat split.
Qed.

End Properties.

(** * The sample sessions

    The theorems above at the sample collaborators, and the runs that
    show where the code parts from what one would expect of it. *)

#[local] Existing Instance Demo.passthrough.



Lemma chunk_after_drain_is_stranded_witness :
  let w := run Demo.tcp0 [Demo.first_chunk] in
  let w' :=
    run w [ev_connect_made; ev_data_received Demo.WORLD;
           ev_connect_returned] in
  connecting tt w
  /\ upstream_bytes w' = Demo.HELLO
  /\ lh_connect_buffer (local w') = Demo.HELLO ++ Demo.WORLD
  /\ upstream_bytes (run w' [ev_data_received Demo.AGAIN])
     = Demo.HELLO ++ Demo.AGAIN.
Proof.
  intros w w'.
  assert (connecting tt w) as C.
  { repeat split; try (vm_compute; reflexivity). vm_compute. discriminate. }
  split; [exact C|].
  destruct (@chunk_after_drain_is_stranded Demo.passthrough tt tt w
              Demo.WORLD Demo.WORLD C eq_refl) as (U & B & L).
  split; [exact U|]. split; [exact B|].
  exact (L [ev_data_received Demo.AGAIN] [Demo.AGAIN] eq_refl eq_refl).
Defined.


(** [RemoteUDP.close] closes the remote and leaves its session open. *)
Lemma RemoteUDP_close_leaves_session_open :
  ru_is_closing (fst (RemoteUDP_close (Demo.udp_remote, Demo.udp0))) = true
  /\ snd (RemoteUDP_close (Demo.udp_remote, Demo.udp0)) = Demo.udp0
  /\ local_closing (snd (RemoteUDP_close (Demo.udp_remote, Demo.udp0)))
     = false
  /\ lh_stage (local (snd (RemoteUDP_close (Demo.udp_remote, Demo.udp0))))
     = Some STAGE_INIT.
Proof. repeat split. Qed.

Lemma close_reaches_the_other_half_on_tcp_only_witness :
  let w := run Demo.tcp0 Demo.in_order in
  (lh_remote (local w) = true /\ has_remote w = true
   /\ local_closing w = false /\ remote_closing w = false)
  /\ remote_closing (close w) = true
  /\ local_closing (remote_close w) = true
  /\ lh_stage (local (remote_close w)) = Some STAGE_DESTROY
  /\ udp_shape Demo.udp0
  /\ lh_remote (local (run Demo.udp0
                         [ev_data_received (Demo.dns_header ++ Demo.query)]))
     = false.
Proof.
  intros w.
  assert (lh_remote (local w) = true /\ has_remote w = true
          /\ local_closing w = false /\ remote_closing w = false)
    as (H1 & H2 & H3 & H4) by (vm_compute; repeat split).
  split; [repeat split; assumption|].
  destruct (close_reaches_the_other_half_on_tcp_only w)
    as ((_ & L) & R & _).
  split; [exact (L H1 H2 H3)|].
  destruct (R H2 H4) as (_ & R1 & R2).
  split; [exact R1|]. split; [exact R2|].
  assert (udp_shape Demo.udp0) as S by (repeat split).
  split; [exact S|].
  destruct (close_reaches_the_other_half_on_tcp_only Demo.udp0)
    as (_ & _ & _ & _ & U).
  exact (proj1 (U S [ev_data_received (Demo.dns_header ++ Demo.query)])).
Defined.

Lemma reply_address_type_is_always_01_witness :
  @reply_plaintext Demo.passthrough ("2001:db8::1"%string, 53) Demo.query
  = Ok Demo.ipv6_reply
  /\ exists addr port : bytes,
       Demo.ipv6_reply = [x01] ++ addr ++ port ++ Demo.query
       /\ struct_pack_H 53 = Ok port
       /\ @inet_pton Demo.passthrough AF_INET6 "2001:db8::1"%string
          = Some addr.
Proof.
  split; [vm_compute; reflexivity|].
  destruct (@reply_address_type_is_always_01 Demo.passthrough
              ("2001:db8::1"%string, 53) Demo.query Demo.ipv6_reply eq_refl)
    as (addr & port & E & P & _ & A).
  exists addr, port. repeat split; assumption.
Defined.





Lemma udp_datagram_never_reaches_upstream_witness :
  let u1 := step Demo.udp0 (ev_data_received (Demo.dns_header ++ Demo.query)) in
  stage_writes u1 = [STAGE_INIT; STAGE_ERROR; STAGE_DESTROY]
  /\ local_closing u1 = true
  /\ ACTIVE_CONNECTION_COUNT u1 = 0 - 1
  /\ upstream_transport u1 = new_transport
  /\ client_transport u1 = new_transport.
Proof.
  apply (proj2 (@udp_datagram_never_reaches_upstream Demo.passthrough
                  8388 0 0 Demo.client []) tt tt
           (Demo.dns_header ++ Demo.query) (Demo.dns_header ++ Demo.query)).
  - reflexivity.
  - reflexivity.
  - discriminate.
  - reflexivity.
Defined.

Lemma empty_plaintext_changes_nothing_witness :
  let w := run Demo.tcp0 [Demo.first_chunk] in
  handle_data_received [] w = with_local (set_cipher (Some tt)) w
  /\ lh_connect_buffer (local (handle_data_received [] w)) = Demo.HELLO.
Proof.
  intros w.
  destruct (@empty_plaintext_changes_nothing Demo.passthrough w [] tt tt
              eq_refl eq_refl) as (E & _ & B & _).
  split; [exact E|]. rewrite B. vm_compute. reflexivity.
Defined.

(** ** More of the sample sessions *)


Lemma no_bytes_after_close_witness :
  let w := run Demo.tcp0 Demo.in_order in
  let w' :=
    run (do_close w call_remote_close)
      [ev_data_received Demo.AGAIN; ev_remote_data_received Demo.WORLD] in
  established w
  /\ client_bytes w' = client_bytes w
  /\ upstream_bytes w' = upstream_bytes w.
Proof.
  intros w w'.
  assert (established w) as E.
  { refine (conj _ (conj _ (conj _ (conj _ (conj _ (conj _
              (ex_intro _ (@mkRemoteTCP Demo.passthrough true tt true false)
                 (conj _ _))))))));
      vm_compute; reflexivity. }
  split; [exact E|].
  destruct (no_bytes_after_close w call_remote_close
              [ev_data_received Demo.AGAIN;
               ev_remote_data_received Demo.WORLD] E) as (C & U & _).
  split; assumption.
Defined.

Lemma ready_session_relays_both_ways_witness :
  let w :=
    run Demo.tcp0
      [Demo.first_chunk; ev_connect_made; ev_connect_returned] in
  let tr :=
    [ev_data_received Demo.WORLD; ev_remote_data_received Demo.query;
     ev_data_received Demo.AGAIN] in
  relaying tt w
  /\ upstream_bytes (run w tr)
     = upstream_bytes w ++ List.concat [Demo.WORLD; Demo.AGAIN]
  /\ client_bytes (run w tr)
     = client_bytes w ++ List.concat (@ciphertexts Demo.passthrough tt tr).
Proof.
  intros w tr.
  assert (relaying tt w) as R.
  { refine (conj _ (conj (or_introl _) (conj _ (conj _ (conj _ _)))));
      vm_compute; reflexivity. }
  split; [exact R|].
  exact (@ready_session_relays_both_ways Demo.passthrough tt w
           (@mkRemoteTCP Demo.passthrough true tt true false) tr
           [Demo.WORLD; Demo.AGAIN] R eq_refl eq_refl eq_refl eq_refl).
Defined.

Lemma undecryptable_chunk_closes_session_witness :
  let w := @fresh_world Demo.passthrough 8388 0 0 in
  lh_cipher (local w) = None
  /\ lh_stage (local (handle_data_received Demo.HELLO w))
     = Some STAGE_DESTROY
  /\ local_closing (handle_data_received Demo.HELLO w) = true.
Proof.
  intros w. split; [reflexivity|].
  destruct (@undecryptable_chunk_closes_session Demo.passthrough w
              Demo.HELLO (or_introl eq_refl)) as (S & L & _).
  split; assumption.
Defined.

Lemma closed_handler_ignores_data_witness :
  let w := run Demo.tcp0 Demo.refused in
  (local_closing w = true /\ lh_stage (local w) = Some STAGE_DESTROY)
  /\ metrics_and_transports (handle_data_received Demo.AGAIN w)
     = metrics_and_transports w.
Proof.
  intros w. split; [split; vm_compute; reflexivity|].
  apply (@closed_handler_ignores_data Demo.passthrough w Demo.AGAIN);
    vm_compute; reflexivity.
Defined.

Lemma connect_after_client_left_stays_open_witness :
  let w := run Demo.tcp0 [Demo.first_chunk] in
  let w' := run w [ev_eof_received; ev_connect_made; ev_connect_returned] in
  (connecting tt w /\ local_closing w = false)
  /\ local_closing w' = true
  /\ remote_closing
       (run w' [ev_data_received Demo.AGAIN; ev_connection_lost]) = false
  /\ upstream_bytes w' = Demo.HELLO.
Proof.
  intros w w'.
  assert (connecting tt w) as C.
  { repeat split; try (vm_compute; reflexivity). vm_compute. discriminate. }
  split; [split; [exact C | reflexivity]|].
  destruct (@connect_after_client_left_stays_open Demo.passthrough tt w
              [ev_data_received Demo.AGAIN; ev_connection_lost]
              C eq_refl eq_refl)
    as ((L & _) & _ & U & _ & (R & _)).
  split; [exact L|]. split; [exact R | exact U].
Defined.

Lemma udp_registry_one_handler_per_peer_witness :
  let u :=
    udp_serve (@LocalUDP_start Demo.passthrough 8388 0 0)
      [(Demo.dns_header ++ Demo.query, Demo.client)] in
  let other : Peer := ("198.51.100.9"%string, 40001) in
  (Demo.client <> other /\ dict_get Demo.client (lu_protocols u) <> None)
  /\ dict_get Demo.client
       (lu_protocols (LocalUDP_datagram_received Demo.query other u))
     = dict_get Demo.client (lu_protocols u)
  /\ dict_get Demo.client
       (lu_protocols (udp_serve u [(Demo.query, other)])) <> None.
Proof.
  intros u other.
  assert (Demo.client <> other) as N by discriminate.
  assert (dict_get Demo.client (lu_protocols u) <> None) as G
    by (vm_compute; discriminate).
  split; [split; assumption|].
  destruct (@udp_registry_one_handler_per_peer Demo.passthrough u
              Demo.query other Demo.client [(Demo.query, other)])
    as (_ & F & K).
  split; [exact (F N) | exact (K G)].
Defined.

Lemma closed_udp_peer_is_never_served_again_witness :
  let u :=
    udp_serve (@LocalUDP_start Demo.passthrough 8388 0 0)
      [(Demo.dns_header ++ Demo.query, Demo.client)] in
  let u' := LocalUDP_datagram_received Demo.query Demo.client u in
  lu_transport u' = lu_transport u
  /\ lu_active u' = lu_active u
  /\ lu_made u' = lu_made u
  /\ exists w' : World,
       dict_get Demo.client (lu_protocols u') = Some w'
       /\ local_closing w' = true
       /\ lh_stage (local w') = Some STAGE_DESTROY.
Proof.
  intros u u'.
  apply (@closed_udp_peer_is_never_served_again Demo.passthrough u
           Demo.client
           (handle_data_received (Demo.dns_header ++ Demo.query) Demo.udp0)
           Demo.query);
    vm_compute; reflexivity.
Defined.

Lemma udp_reply_reaches_the_client_once_witness :
  match
    RemoteUDP_datagram_received Demo.query ("8.8.8.8"%string, 53)
      (Demo.udp_remote, Demo.udp0)
  with
  | Ok (u', w') =>
    ru_peername Demo.udp_remote = Some ("8.8.8.8"%string, 53)
    /\ local w' = local Demo.udp0
  | Raise _ => False
  end.
Proof.
  assert (exists u' w',
            RemoteUDP_datagram_received Demo.query ("8.8.8.8"%string, 53)
              (Demo.udp_remote, Demo.udp0) = Ok (u', w')) as (u' & w' & E)
    by (vm_compute; eexists; eexists; reflexivity).
  rewrite E.
  destruct (@udp_reply_reaches_the_client_once Demo.passthrough _ _ _ _ _ _ E)
    as ((P & _) & plain & _ & _ & _ & L & _).
  split; assumption.
Defined.

Lemma udp_reply_raises_witness :
  let u := fst (RemoteUDP_close (Demo.udp_remote, Demo.udp0)) in
  (ru_local u = false
   /\ ru_peername u <> Some ("8.8.4.4"%string, 53))
  /\ RemoteUDP_datagram_received Demo.query ("8.8.4.4"%string, 53)
       (u, Demo.udp0) = Raise AssertionError
  /\ exists e : Exn,
       RemoteUDP_datagram_received Demo.query ("8.8.8.8"%string, 53)
         (u, Demo.udp0) = Raise e.
Proof.
  intros u.
  assert (ru_local u = false) as L by reflexivity.
  assert (ru_peername u <> Some ("8.8.4.4"%string, 53)) as N
    by (vm_compute; discriminate).
  split; [split; assumption|].
  split.
  - exact (proj1 (@udp_reply_raises Demo.passthrough u Demo.udp0 Demo.query
                    ("8.8.4.4"%string, 53)) N).
  - destruct (@udp_reply_raises Demo.passthrough u Demo.udp0 Demo.query
                ("8.8.8.8"%string, 53)) as (_ & _ & _ & H).
    exact (H L).
Defined.

Lemma RemoteUDP_sends_once_and_nothing_after_close_witness :
  let u := @mkRemoteUDP Demo.passthrough Demo.query true None None tt false in
  let u1 := RemoteUDP_connection_made ("8.8.8.8"%string, 53) u in
  let u2 := fst (RemoteUDP_close (u1, Demo.udp0)) in
  ru_is_closing u = false
  /\ ru_transport u1 = Some (mkTransport false [(None, Demo.query)])
  /\ RemoteUDP_write Demo.HELLO u2 = u2.
Proof.
  intros u u1 u2. split; [reflexivity|].
  destruct (@RemoteUDP_sends_once_and_nothing_after_close Demo.passthrough
              u Demo.udp0 ("8.8.8.8"%string, 53) Demo.HELLO eq_refl)
    as (T & _ & _ & W & _).
  split; assumption.
Defined.
